(** * echellogram_plot: the layout and annotation code of [echellogram_plot.py]

    A shallow embedding of the three functions of the script:
    [wavelength_to_rgb], [trace_lines] and [plot_echellogram].

    Numbers.  The script computes on Python floats.  Here a float is an exact
    rational ([Q]); every comparison and every [+ - * /] of the source is the
    same operation on [Q], and the development proves nothing that depends on
    rounding.  Two things of the host language have no rational counterpart
    and are made explicit:
    - the power operator [x ** g] is a parameter ([fpow]) of the colour
      mapper and of everything that calls it;
    - [np.mean] of an empty array is NaN; [np_mean] returns [None] there and
      the caller does with it what the source does with NaN.

    Order numbers are Python ints ([Z]); [%] is Python's floored remainder,
    which for the positive modulus 5 is [Z.modulo].

    Left out: the [print] calls of [trace_lines], and of matplotlib what is
    style only (text size, the box behind a line's name, ticks, spines). *)

From Stdlib Require Import QArith Qabs Qround Lqa ZArith List Bool String Lia.
Import ListNotations.
Open Scope Q_scope.

(** ** Comparisons of the source, as boolean functions *)

Definition Qltb (x y : Q) : bool := negb (Qle_bool y x).

Infix "<?" := Qltb (at level 70, no associativity) : Q_scope.
Infix "<=?" := Qle_bool (at level 70, no associativity) : Q_scope.
Notation "x >? y" := (Qltb y x) (at level 70, no associativity) : Q_scope.
Notation "x >=? y" := (Qle_bool y x) (at level 70, no associativity) : Q_scope.
Infix "=?" := Qeq_bool (at level 70, no associativity) : Q_scope.

(** ** [wavelength_to_rgb] (lines 14-64) *)

Section PowerOperator.

(** [fpow x g] stands for Python's [x ** g] on floats. *)
Variable fpow : Q -> Q -> Q.

Definition wavelength_to_rgb (wavelength gamma : Q) : Q * Q * Q :=
  if (wavelength >=? 380) && (wavelength <=? 440) then
    let attenuation := 0.3 + 0.7 * (wavelength - 380) / (440 - 380) in
    let R := fpow ((-(wavelength - 440) / (440 - 380)) * attenuation) gamma in
    let G := 0 in
    let B := fpow (1 * attenuation) gamma in
    (R, G, B)
  else if (wavelength >=? 440) && (wavelength <=? 490) then
    let R := 0 in
    let G := fpow ((wavelength - 440) / (490 - 440)) gamma in
    let B := 1 in
    (R, G, B)
  else if (wavelength >=? 490) && (wavelength <=? 510) then
    let R := 0 in
    let G := 1 in
    let B := fpow (-(wavelength - 510) / (510 - 490)) gamma in
    (R, G, B)
  else if (wavelength >=? 510) && (wavelength <=? 580) then
    let R := fpow ((wavelength - 510) / (580 - 510)) gamma in
    let G := 1 in
    let B := 0 in
    (R, G, B)
  else if (wavelength >=? 580) && (wavelength <=? 645) then
    let R := 1 in
    let G := fpow (-(wavelength - 645) / (645 - 580)) gamma in
    let B := 0 in
    (R, G, B)
  else if (wavelength >=? 645) && (wavelength <=? 750) then
    let attenuation := 0.3 + 0.7 * (750 - wavelength) / (750 - 645) in
    let R := fpow (1 * attenuation) gamma in
    let G := 0 in
    let B := 0 in
    (R, G, B)
  else
    (0, 0, 0).

(** The default of the keyword argument [gamma=0.8]. *)
Definition default_gamma : Q := 0.8.

End PowerOperator.

(** An instance of the power operator: Python's [x ** g] for an exponent [g]
    that is a whole number, the product of [g] copies of [x], which is exact
    on the rationals.  It is used at such exponents only. *)
Definition whole_power (x g : Q) : Q := Qpower x (Qfloor g).

(** ** The catalogue [lines] (lines 69-115)

    The dict of stellar lines, name to wavelength in angstrom, in the order
    of the literal. *)
Definition lines : list (string * Q) :=
  [ ("H$\alpha$",   6564.8131);
    ("H$\beta$",    4863.3582);
    ("H$\gamma$",   4341.2202);
    ("H$\delta$",   4101.7103);
    ("Na $D_1$",    5895.92);
    ("Na $D_2$",    5889.95);
    ("NaI",         8191.2515);
    ("SiIII$_1$",   4552.622);
    ("SiIII$_2$",   4567.840);
    ("SiIII$_3$",   4574.757);
    ("CaI$_{422}$", 4226.7270);
    ("CaI$_{616}$", 6164.2055);
    ("CaII-K",      3933.6614);
    ("CaII-H",      3968.4673);
    ("CaII$_1$",    8498.02);
    ("CaII$_2$",    8542.09);
    ("CaII$_3$",    8662.140);
    ("FeI$_1$",     4384.8318);
    ("FeI$_2$",     4406.0371);
    ("FeI$_{869}$", 8691.3867);
    ("FeH",         9940);
    ("He-d",        5875.618);
    ("MgI",         5174.141);
    ("Rb-B$_1$",    7929.781);
    ("Rb-B$_2$",    7969.7918);
    ("CaH2",        6831.862);
    ("CaH3",        6976.9239) ]%string.

(** ** [trace_lines] (lines 120-154) *)

(** An entry of [Echelle.Orders]: the fields the scan reads. *)
Module Order.
Record t : Type := mk {
  m : Z;
  minFSRwl : Q;
  maxFSRwl : Q;
  minWL : Q;
  maxWL : Q
}.
End Order.

(** The ZEMAX link [Echelle.ln], as far as the scan drives it: the surface
    parameter written by [zSetSurfaceParameter(zmx_nsurf, 2, o.m)] (and pushed
    with [zPushLens]) and the wavelength written by [zSetWave(1, line_wl, 1.)]
    (and taken up with [zGetUpdate]). *)
Module Link.
Record t : Type := mk {
  surface_parameter : Z;
  wave : Q
}.
End Link.

Definition zSetSurfaceParameter (value : Z) (ln : Link.t) : Link.t :=
  Link.mk value (Link.wave ln).

Definition zSetWave (wavelength : Q) (ln : Link.t) : Link.t :=
  Link.mk (Link.surface_parameter ln) wavelength.

(** What [zGetTrace] returns: an [int] error code, or a tuple of which the
    scan reads items 2 and 3 as [x] and [y]. *)
Inductive rayTraceData : Type :=
| TraceError (code : Z)
| TraceTuple (x y : Q).

(** An element [[line_name, o.m, line_wl, [x, y]]] of [lines_xy]. *)
Module Traced.
Record t : Type := mk {
  line_name : string;
  m : Z;
  line_wl : Q;
  xy : Q * Q
}.
End Traced.

(** The window chosen at lines 128-135: the pair [(min_wl, max_wl)]. *)
Definition window (FSRonly : bool) (o : Order.t) : Q * Q :=
  if FSRonly then
    let max_wl := Order.minFSRwl o in
    let min_wl := Order.maxFSRwl o in
    (min_wl, max_wl)
  else
    let min_wl := Order.minWL o in
    let max_wl := Order.maxWL o in
    (min_wl, max_wl).

(** The test of line 140. *)
Definition in_window (min_wl max_wl line_wl : Q) : bool :=
  (line_wl >? min_wl) && (line_wl <? max_wl).

Section RayTracer.

(** The ray tracer behind the link: the result of
    [zGetTrace(1, 0, -1, 0, 0, 0, 0)] in a given state of the link. *)
Variable zGetTrace : Link.t -> rayTraceData.

(** The loop of lines 137-152 for one order [o]; [lines_xy] is the list
    shared by the whole scan.  On an [int] result the loop is left
    ([break]). *)
Fixpoint trace_order (o : Order.t) (min_wl max_wl : Q)
    (line_list : list (string * Q)) (ln : Link.t) (lines_xy : list Traced.t)
    : Link.t * list Traced.t :=
  match line_list with
  | [] => (ln, lines_xy)
  | (line_name, wl_angstrom) :: rest =>
      let line_wl := wl_angstrom / 10000 in
      if in_window min_wl max_wl line_wl then
        let ln := zSetWave line_wl ln in
        match zGetTrace ln with
        | TraceError _ => (ln, lines_xy)
        | TraceTuple x y =>
            trace_order o min_wl max_wl rest ln
              (lines_xy ++ [Traced.mk line_name (Order.m o) line_wl (x, y)])
        end
      else trace_order o min_wl max_wl rest ln lines_xy
  end.

(** The loop of lines 124-152 over [Echelle.Orders.values()]. *)
Fixpoint trace_orders (orders : list Order.t) (FSRonly : bool)
    (line_list : list (string * Q)) (ln : Link.t) (lines_xy : list Traced.t)
    : Link.t * list Traced.t :=
  match orders with
  | [] => (ln, lines_xy)
  | o :: rest =>
      let ln := zSetSurfaceParameter (Order.m o) ln in
      let '(min_wl, max_wl) := window FSRonly o in
      let '(ln, lines_xy) := trace_order o min_wl max_wl line_list ln lines_xy in
      trace_orders rest FSRonly line_list ln lines_xy
  end.

(** [trace_lines(line_list, Echelle, FSRonly)]: the [Echelle] object is
    given by its orders and its link; the value returned is [lines_xy]. *)
Definition trace_lines (line_list : list (string * Q))
    (Orders : list Order.t) (ln : Link.t) (FSRonly : bool) : list Traced.t :=
  snd (trace_orders Orders FSRonly line_list ln []).

(** The records one order adds when the scan reaches it: the link then carries
    the order number, whatever wavelength it was left at
    ([trace_order_records] below). *)
Definition order_records (o : Order.t) (min_wl max_wl : Q)
    (line_list : list (string * Q)) : list Traced.t :=
  snd (trace_order o min_wl max_wl line_list (Link.mk (Order.m o) 0) []).

End RayTracer.


(** ** The drawing surface *)

(** The [color=] argument of [ax.plot]: the string ["k"] or an RGB triple. *)
Inductive color : Type :=
| ColorK
| ColorRGB (col : Q * Q * Q).

(** What matplotlib paints for a [color]: ["k"] is its one-letter name of
    black. *)
Definition painted (c : color) : Q * Q * Q :=
  match c with
  | ColorK => (0, 0, 0)
  | ColorRGB col => col
  end.

Inductive alignment : Type := AlignLeft | AlignRight | AlignCenter.

(** The strings handed to [ax.text], kept as what they are built from:
    - [WavelengthText nm verbose] is ["  " + f"{nm:.0f}"], with ["$\lambda=$"]
      before and ["nm"] after the number when [verbose];
    - [OrderText n verbose] is [f"{n:.0f}" + "  "], with ["$m=$"] before the
      number when [verbose];
    - [NameText s] is a line's name. *)
Inductive text_string : Type :=
| WavelengthText (nm : Q) (verbose : bool)
| OrderText (n : Z) (verbose : bool)
| NameText (s : string).

(** The calls that draw: [ax.plot(hs, vs, color=c, lw=w)],
    [ax.text(h, v, s, horizontalalignment=a, ...)] and
    [ax.add_artist(plt.Polygon(verts, ...))].  The first coordinate of each is
    the horizontal one of the plot. *)
Inductive artist : Type :=
| Line2D (hs vs : list Q) (c : color) (lw : Q)
| Text (h v : Q) (s : text_string) (a : alignment)
| Polygon (verts : list (Q * Q)).

(** The axes object [ax]: its limits and, in the order of the calls, what was
    drawn on it.  The limits are set explicitly before anything is drawn, so
    drawing does not move them. *)
Module Axes.
Record t : Type := mk {
  xlim : Q * Q;
  ylim : Q * Q;
  artists : list artist
}.
End Axes.

(** What [set_xlim] and [set_ylim] make of the pair they are given
    ([matplotlib.transforms.nonsingular] with the expander 0.05 of the axis
    locator): a pair of two equal limits is widened, to -0.05 and 0.05 when
    both are 0 and by 5 percent of their size otherwise; any other pair is
    kept.  (On floats matplotlib also widens two limits that differ by less
    than the precision of a float; exact numbers have no such pairs.) *)
Definition nonsingular (vmin vmax : Q) : Q * Q :=
  if vmin =? vmax then
    if (vmax =? 0) && (vmin =? 0) then (- 0.05, 0.05)
    else (vmin - 0.05 * Qabs vmin, vmax + 0.05 * Qabs vmax)
  else (vmin, vmax).

Definition set_xlim (lo hi : Q) (ax : Axes.t) : Axes.t :=
  Axes.mk (nonsingular lo hi) (Axes.ylim ax) (Axes.artists ax).

Definition set_ylim (lo hi : Q) (ax : Axes.t) : Axes.t :=
  Axes.mk (Axes.xlim ax) (nonsingular lo hi) (Axes.artists ax).

Definition get_xlim (ax : Axes.t) : Q * Q := Axes.xlim ax.

Definition get_ylim (ax : Axes.t) : Q * Q := Axes.ylim ax.

Definition add_artist (a : artist) (ax : Axes.t) : Axes.t :=
  Axes.mk (Axes.xlim ax) (Axes.ylim ax) (Axes.artists ax ++ [a]).

Definition ax_plot (hs vs : list Q) (c : color) (lw : Q) (ax : Axes.t) : Axes.t :=
  add_artist (Line2D hs vs c lw) ax.

Definition ax_text (h v : Q) (s : text_string) (a : alignment) (ax : Axes.t) : Axes.t :=
  add_artist (Text h v s a) ax.

(** ** numpy *)

Definition np_sum (l : list Q) : Q := fold_left Qplus l 0.

(** [np.mean]: [None] is the NaN of an empty array. *)
Definition np_mean (l : list Q) : option Q :=
  match l with
  | [] => None
  | _ :: _ => Some (np_sum l / inject_Z (Z.of_nat (List.length l)))
  end.

(** [np.sum(col)] of a colour triple. *)
Definition np_sum_col (col : Q * Q * Q) : Q :=
  let '(R, G, B) := col in np_sum [R; G; B].

(** ** [plot_echellogram] (lines 157-263) *)

(** A sample [point] of [SpectralFormat]: [point[0]], [point[1]], [point[2]]
    and [point[3]]. *)
Module Point.
Record t : Type := mk {
  m : Z;
  wl : Q;
  x : Q;
  y : Q
}.
End Point.

(** The variables of the assembly loop (lines 175-177) and the axes. *)
Module Loop.
Record t : Type := mk {
  working_m : Z;
  order_xs : list Q;
  order_ys : list Q;
  order_wls : list Q;
  ax : Axes.t
}.
End Loop.

(** The three [append] calls that the loop makes together. *)
Definition append_point (point : Point.t) (st : Loop.t) : Loop.t :=
  Loop.mk (Loop.working_m st)
    (Loop.order_xs st ++ [Point.x point])
    (Loop.order_ys st ++ [Point.y point])
    (Loop.order_wls st ++ [Point.wl point])
    (Loop.ax st).

Section Renderer.

(** Python's [**], as for [wavelength_to_rgb]. *)
Variable fpow : Q -> Q -> Q.

(** [wavelength_to_rgb(np.mean(np.array(order_wls) * 1000.))]: on the NaN of
    an empty [order_wls] every band test of the mapper is false and it returns
    [(0, 0, 0)]. *)
Definition order_col (order_wls : list Q) : Q * Q * Q :=
  match np_mean (map (fun wl => wl * 1000) order_wls) with
  | Some wavelength => wavelength_to_rgb fpow wavelength default_gamma
  | None => (0, 0, 0)
  end.

(** Lines 189-193, and again lines 231-235: the polyline of the accumulators
    is drawn. *)
Definition plot_order (order_xs order_ys order_wls : list Q) (ax : Axes.t) : Axes.t :=
  let col := order_col order_wls in
  if np_sum_col col =? 0 then
    ax_plot order_ys order_xs ColorK 1.2 ax
  else
    ax_plot order_ys order_xs (ColorRGB col) 1.2 ax.

(** Lines 194-211: the two labels; [m] is the order of the point being read.
    The subscripts [[0]] and [[-1]] are under the guard [len(order_xs) > 0]. *)
Definition label_order (m : Z) (order_xs order_ys order_wls : list Q)
    (ax : Axes.t) : Axes.t :=
  if (0 <? List.length order_xs)%nat && (m mod 5 =? 0)%Z then
    let ax :=
      if (nth 0 order_xs 0 >? fst (get_xlim ax)) && (nth 0 order_xs 0 <? snd (get_xlim ax)) then
        if (nth 0 order_ys 0 >? fst (get_ylim ax)) && (nth 0 order_ys 0 + 5 <? snd (get_ylim ax)) then
          ax_text (nth 0 order_ys 0) (nth 0 order_xs 0)
            (WavelengthText (nth 0 order_wls 0 * 1000) (Z.abs m =? 90)%Z) AlignLeft ax
        else ax
      else ax in
    if (nth 0 order_xs 0 >? fst (get_xlim ax)) && (nth 0 order_xs 0 <? snd (get_xlim ax)) then
      if (nth 0 order_ys 0 - 3 >? fst (get_ylim ax)) && (nth 0 order_ys 0 <? snd (get_ylim ax)) then
        ax_text (last order_ys 0) (last order_xs 0)
          (OrderText (Z.abs m) (Z.abs m =? 90)%Z) AlignRight ax
      else ax
    else ax
  else ax.

(** The body of the loop of line 185 for the point of index [i] of a
    [SpectralFormat] of length [n] (lines 186-235). *)
Definition loop_body (n : nat) (i : nat) (point : Point.t) (st : Loop.t) : Loop.t :=
  let m := Point.m point in
  let st :=
    if negb (m =? Loop.working_m st)%Z then
      let ax := plot_order (Loop.order_xs st) (Loop.order_ys st) (Loop.order_wls st) (Loop.ax st) in
      let ax := label_order m (Loop.order_xs st) (Loop.order_ys st) (Loop.order_wls st) ax in
      append_point point (Loop.mk m [] [] [] ax)
    else st in
  let st :=
    if (m =? Loop.working_m st)%Z then append_point point st else st in
  if (Z.of_nat i =? Z.of_nat n - 1)%Z then
    let st := append_point point st in
    Loop.mk (Loop.working_m st) (Loop.order_xs st) (Loop.order_ys st) (Loop.order_wls st)
      (plot_order (Loop.order_xs st) (Loop.order_ys st) (Loop.order_wls st) (Loop.ax st))
  else st.

(** [for i, point in enumerate(SpectralFormat)], from index [i] on. *)
Fixpoint loop_from (n : nat) (i : nat) (points : list Point.t) (st : Loop.t) : Loop.t :=
  match points with
  | [] => st
  | point :: rest => loop_from n (S i) rest (loop_body n i point st)
  end.

(** The assembly loop with its initial variables (lines 175-177, 185-235). *)
Definition assembly (SpectralFormat : list Point.t) (ax : Axes.t) : Loop.t :=
  loop_from (List.length SpectralFormat) 0 SpectralFormat (Loop.mk 0 [] [] [] ax).

(** The body of the loop of lines 237-243 ([col] is computed and not used). *)
Definition label_line (line : Traced.t) (ax : Axes.t) : Axes.t :=
  let col := wavelength_to_rgb fpow (Traced.line_wl line * 1000) default_gamma in
  if (fst (Traced.xy line) >? fst (get_xlim ax)) && (fst (Traced.xy line) <? snd (get_xlim ax)) then
    if (snd (Traced.xy line) >? fst (get_ylim ax)) && (snd (Traced.xy line) <? snd (get_ylim ax)) then
      ax_text (snd (Traced.xy line)) (fst (Traced.xy line))
        (NameText (Traced.line_name line)) AlignCenter ax
    else ax
  else ax.

Definition label_lines (lines_xy : list Traced.t) (ax : Axes.t) : Axes.t :=
  fold_left (fun ax line => label_line line ax) lines_xy ax.

(** Lines 246-251: the detector outline, [np.transpose([vert_x, vert_y])]. *)
Definition detector (b : Q) : artist :=
  Polygon [(- b, - b); (b, - b); (b, b); (- b, b)].

(** [plot_echellogram(ax, SpectralFormat, lines_xy, detector_corners)]: the
    axes after the call; [None] is the [IndexError] of [detector_corners[0]]
    on an empty list.  The ticks and spines set at lines 259-263 are not part
    of [Axes.t]. *)
Definition plot_echellogram (ax : Axes.t) (SpectralFormat : list Point.t)
    (lines_xy : list Traced.t) (detector_corners : list Q) : option Axes.t :=
  match detector_corners with
  | [] => None
  | corner :: _ =>
      let b := Qabs corner * 1.25 in
      let ax := set_xlim (- b) b ax in
      let ax := set_ylim (- b) b ax in
      let ax := Loop.ax (assembly SpectralFormat ax) in
      let ax := label_lines lines_xy ax in
      let b := Qabs corner in
      Some (add_artist (detector b) ax)
  end.

End Renderer.


(** * The loop in closed form

    What the assembly loop draws, as a function of the points it reads: the
    three accumulators always hold the coordinates of one list of points
    ([acc]), and the loop index is only used to recognise the last point.
    [assembly_emitted] below proves that the loop of the source draws exactly
    this list. *)

(** The accumulators that hold the points [acc]. *)
Definition state_of (w : Z) (acc : list Point.t) (ax : Axes.t) : Loop.t :=
  Loop.mk w (map Point.x acc) (map Point.y acc) (map Point.wl acc) ax.

(** [ax] after the calls that draw [l]. *)
Definition add_artists (l : list artist) (ax : Axes.t) : Axes.t :=
  Axes.mk (Axes.xlim ax) (Axes.ylim ax) (Axes.artists ax ++ l).

(** The test that guards the wavelength label (lines 195-196) and the one
    that guards the order label (lines 204-205), on a sample [(x, y)]. *)
Definition start_label_test (xl yl : Q * Q) (x y : Q) : bool :=
  ((x >? fst xl) && (x <? snd xl)) && ((y >? fst yl) && (y + 5 <? snd yl)).

Definition end_label_test (xl yl : Q * Q) (x y : Q) : bool :=
  ((x >? fst xl) && (x <? snd xl)) && ((y - 3 >? fst yl) && (y <? snd yl)).

(** The test that guards a line's name (lines 239-240). *)
Definition line_label_test (xl yl : Q * Q) (x y : Q) : bool :=
  ((x >? fst xl) && (x <? snd xl)) && ((y >? fst yl) && (y <? snd yl)).

Section ClosedForm.

Variable fpow : Q -> Q -> Q.

(** The colour argument chosen at lines 190-193. *)
Definition order_color (wls : list Q) : color :=
  if np_sum_col (order_col fpow wls) =? 0 then ColorK
  else ColorRGB (order_col fpow wls).

(** The polyline drawn for the accumulated points [acc]. *)
Definition order_line (acc : list Point.t) : artist :=
  Line2D (map Point.y acc) (map Point.x acc) (order_color (map Point.wl acc)) 1.2.

(** The labels drawn when the accumulated points [acc] are closed by a point
    of order [m]. *)
Definition order_labels (xl yl : Q * Q) (m : Z) (acc : list Point.t) : list artist :=
  match acc with
  | [] => []
  | first :: _ =>
      if (m mod 5 =? 0)%Z then
        (if start_label_test xl yl (Point.x first) (Point.y first) then
           [Text (Point.y first) (Point.x first)
              (WavelengthText (Point.wl first * 1000) (Z.abs m =? 90)%Z) AlignLeft]
         else []) ++
        (if end_label_test xl yl (Point.x first) (Point.y first) then
           [Text (Point.y (last acc first)) (Point.x (last acc first))
              (OrderText (Z.abs m) (Z.abs m =? 90)%Z) AlignRight]
         else [])
      else []
  end.

(** What the loop draws from the working order [w] and the accumulated points
    [acc] on reading [points] to their end. *)
Fixpoint emitted (xl yl : Q * Q) (w : Z) (acc points : list Point.t) : list artist :=
  match points with
  | [] => []
  | p :: rest =>
      let closing :=
        if (Point.m p =? w)%Z then []
        else order_line acc :: order_labels xl yl (Point.m p) acc in
      let acc := if (Point.m p =? w)%Z then acc ++ [p] else [p; p] in
      closing ++
      match rest with
      | [] => [order_line (acc ++ [p])]
      | _ :: _ => emitted xl yl (Point.m p) acc rest
      end
  end.

(** The name drawn for a traced line, if it is drawn. *)
Definition line_label (xl yl : Q * Q) (line : Traced.t) : list artist :=
  if line_label_test xl yl (fst (Traced.xy line)) (snd (Traced.xy line)) then
    [Text (snd (Traced.xy line)) (fst (Traced.xy line))
       (NameText (Traced.line_name line)) AlignCenter]
  else [].

End ClosedForm.

(** * Vocabulary of the properties *)

(** The number of points of the polylines among [l]. *)
Fixpoint drawn_points (l : list artist) : nat :=
  match l with
  | [] => 0
  | Line2D hs _ _ _ :: l => List.length hs + drawn_points l
  | _ :: l => drawn_points l
  end.

(** The number of points of [points] whose order differs from the order in
    force before them, [w] being the order in force at the start. *)
Fixpoint order_changes (w : Z) (points : list Point.t) : nat :=
  match points with
  | [] => 0
  | p :: rest =>
      (if (Point.m p =? w)%Z then 0 else 1) + order_changes (Point.m p) rest
  end.

Definition is_text (a : artist) : bool :=
  match a with Text _ _ _ _ => true | _ => false end.

(** A polyline with no point. *)
Definition empty_line (a : artist) : bool :=
  match a with Line2D [] _ _ _ => true | _ => false end.

(** Strictly inside the viewport: the plot position [(h, v)] against the
    horizontal limits [xl] and the vertical limits [yl]. *)
Definition inside_viewport (xl yl : Q * Q) (h v : Q) : Prop :=
  (fst xl < h /\ h < snd xl) /\ (fst yl < v /\ v < snd yl).

(** [a] is drawn from points of [points]: a polyline is the list [ps] of some
    of them, plotted as [(ys, xs)] in the colour chosen from their
    wavelengths; a label sits at [(y, x)] of one of them. *)
Definition drawn_from (fpow : Q -> Q -> Q) (points : list Point.t) (a : artist) : Prop :=
  match a with
  | Line2D _ _ _ _ => exists ps, incl ps points /\ a = order_line fpow ps
  | Text h v _ _ => exists p, In p points /\ h = Point.y p /\ v = Point.x p
  | Polygon _ => False
  end.


(** The (order, name) pair a record of [lines_xy] stands for. *)
Definition recorded_pair (r : Traced.t) : Z * string :=
  (Traced.m r, Traced.line_name r).

(** The entries of the catalogue strictly inside a window. *)
Definition lines_in_window (min_wl max_wl : Q) (line_list : list (string * Q))
    : list (string * Q) :=
  filter (fun l => in_window min_wl max_wl (snd l / 10000)) line_list.

(** The number of polylines among [l]. *)
Fixpoint drawn_lines (l : list artist) : nat :=
  match l with
  | [] => 0
  | Line2D _ _ _ _ :: l => S (drawn_lines l)
  | _ :: l => drawn_lines l
  end.

(** The three accumulators of the loop have one length. *)
Definition same_lengths (st : Loop.t) : Prop :=
  List.length (Loop.order_ys st) = List.length (Loop.order_xs st)
  /\ List.length (Loop.order_wls st) = List.length (Loop.order_xs st).

(** An axes object on which nothing was drawn. *)
Definition blank_axes : Axes.t := Axes.mk (0, 1) (0, 1) [].

(** * Lemmas *)

Lemma Qltb_lt (x y : Q) : (x <? y) = true <-> x < y.
Proof.
  unfold Qltb. rewrite negb_true_iff, <- not_true_iff_false, Qle_bool_iff.
  split; [apply Qnot_le_lt | apply Qlt_not_le].
Qed.

Lemma Qltb_irrefl (x y : Q) : x == y -> (x <? y) = false.
Proof.
  intro E. apply not_true_iff_false. rewrite Qltb_lt. rewrite E.
  apply Qlt_irrefl.
Qed.

Lemma nonsingular_apart (vmin vmax : Q) :
  vmin < vmax -> nonsingular vmin vmax = (vmin, vmax).
Proof.
  intro H. unfold nonsingular.
  destruct (vmin =? vmax) eqn:E; [|reflexivity].
  apply Qeq_bool_iff in E. lra.
Qed.


Lemma add_artists_nil (ax : Axes.t) : add_artists [] ax = ax.
Proof. destruct ax; unfold add_artists; cbn. now rewrite app_nil_r. Qed.

Lemma add_artists_app (l1 l2 : list artist) (ax : Axes.t) :
  add_artists l2 (add_artists l1 ax) = add_artists (l1 ++ l2) ax.
Proof. unfold add_artists; cbn. now rewrite app_assoc. Qed.

Lemma last_map {A B : Type} (f : A -> B) (l : list A) (a : A) (b : B) :
  l <> [] -> last (map f l) b = f (last l a).
Proof.
  induction l as [|x l IH]; [congruence|].
  intros _. destruct l as [|y l]; [reflexivity|].
  change (last (map f (y :: l)) b = f (last (y :: l) a)).
  apply IH. discriminate.
Qed.

Section RendererFacts.

Variable fpow : Q -> Q -> Q.

Lemma plot_order_line (acc : list Point.t) (ax : Axes.t) :
  plot_order fpow (map Point.x acc) (map Point.y acc) (map Point.wl acc) ax
  = add_artists [order_line fpow acc] ax.
Proof.
  unfold plot_order, order_line, order_color, ax_plot, add_artist, add_artists.
  destruct (np_sum_col _ =? 0); reflexivity.
Qed.

Lemma label_order_labels (m : Z) (acc : list Point.t) (ax : Axes.t) :
  label_order m (map Point.x acc) (map Point.y acc) (map Point.wl acc) ax
  = add_artists (order_labels (Axes.xlim ax) (Axes.ylim ax) m acc) ax.
Proof.
  destruct acc as [|first acc].
  - cbn. now rewrite add_artists_nil.
  - unfold label_order, order_labels.
    change (0 <? List.length (map Point.x (first :: acc)))%nat with true.
    rewrite andb_true_l.
    destruct (m mod 5 =? 0)%Z; [|now rewrite add_artists_nil].
    rewrite (last_map Point.y (first :: acc) first 0) by discriminate.
    rewrite (last_map Point.x (first :: acc) first 0) by discriminate.
    unfold start_label_test, end_label_test, get_xlim, get_ylim.
    cbn [map nth].
    destruct ((Point.x first >? fst (Axes.xlim ax)) && (Point.x first <? snd (Axes.xlim ax)))
      eqn:Ex; cbn [andb].
    2:{ rewrite Ex. now rewrite add_artists_nil. }
    destruct ((Point.y first >? fst (Axes.ylim ax)) && (Point.y first + 5 <? snd (Axes.ylim ax)));
      cbn [ax_text add_artist Axes.xlim Axes.ylim]; rewrite Ex;
      destruct ((Point.y first - 3 >? fst (Axes.ylim ax)) && (Point.y first <? snd (Axes.ylim ax)));
      unfold add_artists, ax_text, add_artist; cbn [Axes.xlim Axes.ylim Axes.artists app];
      rewrite <- ?app_assoc, ?app_nil_r; try reflexivity; now destruct ax.
Qed.

Lemma append_point_state (p : Point.t) (w : Z) (acc : list Point.t) (ax : Axes.t) :
  append_point p (state_of w acc ax) = state_of w (acc ++ [p]) ax.
Proof. unfold append_point, state_of; cbn. now rewrite !map_app. Qed.

(** One turn of the loop on accumulators that hold [acc]. *)
Lemma loop_body_state (n i : nat) (p : Point.t) (w : Z) (acc : list Point.t)
    (ax : Axes.t) :
  loop_body fpow n i p (state_of w acc ax)
  = let closing :=
      if (Point.m p =? w)%Z then []
      else order_line fpow acc
           :: order_labels (Axes.xlim ax) (Axes.ylim ax) (Point.m p) acc in
    let acc' := if (Point.m p =? w)%Z then acc ++ [p] else [p; p] in
    if (Z.of_nat i =? Z.of_nat n - 1)%Z then
      state_of (Point.m p) (acc' ++ [p])
        (add_artists (closing ++ [order_line fpow (acc' ++ [p])]) ax)
    else state_of (Point.m p) acc' (add_artists closing ax).
Proof.
  unfold loop_body.
  cbn [Loop.working_m Loop.order_xs Loop.order_ys Loop.order_wls Loop.ax state_of].
  rewrite plot_order_line, label_order_labels, add_artists_app.
  change (Loop.mk (Point.m p) [] [] []) with (state_of (Point.m p) []).
  rewrite !append_point_state.
  cbn [app Axes.xlim Axes.ylim add_artists].
  destruct (Point.m p =? w)%Z eqn:E; cbn [negb].
  - cbn [Loop.working_m state_of]. rewrite E. rewrite !append_point_state.
    cbn [Loop.working_m Loop.order_xs Loop.order_ys Loop.order_wls Loop.ax state_of].
    rewrite plot_order_line. apply Z.eqb_eq in E. rewrite E.
    rewrite add_artists_nil. reflexivity.
  - cbn [Loop.working_m state_of]. rewrite Z.eqb_refl. rewrite !append_point_state.
    cbn [Loop.working_m Loop.order_xs Loop.order_ys Loop.order_wls Loop.ax state_of].
    rewrite plot_order_line, add_artists_app. cbn [app]. reflexivity.
Qed.

(** The loop of the source draws [emitted]. *)
Lemma loop_from_emitted (points : list Point.t) :
  forall (n i : nat) (w : Z) (acc : list Point.t) (ax : Axes.t),
    (i + List.length points = n)%nat ->
    Loop.ax (loop_from fpow n i points (state_of w acc ax))
    = add_artists (emitted fpow (Axes.xlim ax) (Axes.ylim ax) w acc points) ax.
Proof.
  induction points as [|p rest IH]; intros n i w acc ax Hn.
  - cbn. now rewrite add_artists_nil.
  - cbn [loop_from]. rewrite loop_body_state. cbv zeta.
    destruct rest as [|q rest].
    + cbn [List.length] in Hn.
      replace (Z.of_nat i =? Z.of_nat n - 1)%Z with true
        by (symmetry; apply Z.eqb_eq; lia).
      cbn [loop_from emitted Loop.ax state_of]. reflexivity.
    + cbn [List.length] in Hn.
      replace (Z.of_nat i =? Z.of_nat n - 1)%Z with false
        by (symmetry; apply Z.eqb_neq; lia).
      rewrite (IH n (S i)) by (cbn [List.length]; lia).
      rewrite add_artists_app. reflexivity.
Qed.

Lemma assembly_emitted (SpectralFormat : list Point.t) (ax : Axes.t) :
  Loop.ax (assembly fpow SpectralFormat ax)
  = add_artists (emitted fpow (Axes.xlim ax) (Axes.ylim ax) 0 [] SpectralFormat) ax.
Proof.
  unfold assembly.
  change (Loop.mk 0 [] [] [] ax) with (state_of 0 [] ax).
  now apply loop_from_emitted.
Qed.

Lemma label_line_label (line : Traced.t) (ax : Axes.t) :
  label_line fpow line ax
  = add_artists (line_label (Axes.xlim ax) (Axes.ylim ax) line) ax.
Proof.
  unfold label_line, line_label, line_label_test, get_xlim, get_ylim.
  destruct ((fst (Traced.xy line) >? fst (Axes.xlim ax))
            && (fst (Traced.xy line) <? snd (Axes.xlim ax)));
    cbn [andb]; [|now rewrite add_artists_nil].
  destruct ((snd (Traced.xy line) >? fst (Axes.ylim ax))
            && (snd (Traced.xy line) <? snd (Axes.ylim ax)));
    [reflexivity | now rewrite add_artists_nil].
Qed.

Lemma label_lines_labels (lines_xy : list Traced.t) :
  forall ax : Axes.t,
    label_lines fpow lines_xy ax
    = add_artists (flat_map (line_label (Axes.xlim ax) (Axes.ylim ax)) lines_xy) ax.
Proof.
  unfold label_lines.
  induction lines_xy as [|line rest IH]; intro ax; cbn [fold_left flat_map].
  - now rewrite add_artists_nil.
  - rewrite label_line_label, IH, add_artists_app. reflexivity.
Qed.

End RendererFacts.

(** ** The scan of [trace_lines] *)

Lemma in_window_lt (min_wl max_wl line_wl : Q) :
  in_window min_wl max_wl line_wl = true <-> min_wl < line_wl /\ line_wl < max_wl.
Proof. unfold in_window. now rewrite andb_true_iff, !Qltb_lt. Qed.

Lemma in_window_bound (min_wl max_wl line_wl : Q) :
  line_wl == min_wl \/ line_wl == max_wl ->
  in_window min_wl max_wl line_wl = false.
Proof.
  intros [E|E]; unfold in_window.
  - rewrite (Qltb_irrefl min_wl line_wl); [reflexivity | now symmetry].
  - rewrite (Qltb_irrefl line_wl max_wl E). apply andb_false_r.
Qed.

Section ScanFacts.

Variable zGetTrace : Link.t -> rayTraceData.

(** The loop over the lines never writes the surface parameter. *)
Lemma trace_order_surface (o : Order.t) (min_wl max_wl : Q)
    (line_list : list (string * Q)) :
  forall ln lines_xy,
    Link.surface_parameter
      (fst (trace_order zGetTrace o min_wl max_wl line_list ln lines_xy))
    = Link.surface_parameter ln.
Proof.
  induction line_list as [|[line_name wl_angstrom] rest IH]; intros ln lines_xy;
    cbn [trace_order]; [reflexivity|].
  destruct (in_window _ _ _); [|apply IH].
  destruct (zGetTrace _); [reflexivity|]. now rewrite IH.
Qed.

(** What it appends depends on the link through the surface parameter only,
    and not on what was collected before. *)
Lemma trace_order_records (o : Order.t) (min_wl max_wl : Q)
    (line_list : list (string * Q)) :
  forall ln lines_xy,
    Link.surface_parameter ln = Order.m o ->
    snd (trace_order zGetTrace o min_wl max_wl line_list ln lines_xy)
    = lines_xy ++ order_records zGetTrace o min_wl max_wl line_list.
Proof.
  unfold order_records.
  induction line_list as [|[line_name wl_angstrom] rest IH]; intros ln lines_xy Hm;
    cbn [trace_order].
  - cbn. now rewrite app_nil_r.
  - destruct (in_window _ _ _).
    + replace (zSetWave (wl_angstrom / 10000) ln)
        with (zSetWave (wl_angstrom / 10000) (Link.mk (Order.m o) 0))
        by (unfold zSetWave; cbn; now rewrite Hm).
      destruct (zGetTrace _).
      * cbn. now rewrite app_nil_r.
      * rewrite (IH _ (lines_xy ++ _)) by reflexivity.
        rewrite (IH _ ([] ++ _)) by reflexivity.
        now rewrite app_assoc.
    + now apply IH.
Qed.

(** The whole scan is the orders' records, one order after the other. *)
Lemma trace_orders_records (FSRonly : bool) (line_list : list (string * Q))
    (orders : list Order.t) :
  forall ln lines_xy,
    snd (trace_orders zGetTrace orders FSRonly line_list ln lines_xy)
    = lines_xy
      ++ flat_map (fun o => order_records zGetTrace o (fst (window FSRonly o))
                              (snd (window FSRonly o)) line_list) orders.
Proof.
  induction orders as [|o rest IH]; intros ln lines_xy; cbn [trace_orders flat_map].
  - cbn. now rewrite app_nil_r.
  - destruct (window FSRonly o) as [min_wl max_wl] eqn:W. cbn [fst snd].
    destruct (trace_order zGetTrace o min_wl max_wl line_list
                (zSetSurfaceParameter (Order.m o) ln) lines_xy) as [ln' acc] eqn:T.
    rewrite IH. rewrite app_assoc. f_equal.
    change acc with (snd (ln', acc)). rewrite <- T.
    now apply trace_order_records.
Qed.

Lemma trace_lines_records (line_list : list (string * Q)) (Orders : list Order.t)
    (ln : Link.t) (FSRonly : bool) :
  trace_lines zGetTrace line_list Orders ln FSRonly
  = flat_map (fun o => order_records zGetTrace o (fst (window FSRonly o))
                         (snd (window FSRonly o)) line_list) Orders.
Proof. unfold trace_lines. now rewrite trace_orders_records. Qed.

(** A line outside the window is passed over. *)
Lemma order_records_skip (o : Order.t) (min_wl max_wl : Q) (line_name : string)
    (wl_angstrom : Q) (rest : list (string * Q)) :
  in_window min_wl max_wl (wl_angstrom / 10000) = false ->
  order_records zGetTrace o min_wl max_wl ((line_name, wl_angstrom) :: rest)
  = order_records zGetTrace o min_wl max_wl rest.
Proof. unfold order_records. cbn [trace_order]. now intros ->. Qed.

(** Every record of an order is a line of the list, strictly inside the
    window. *)
Lemma order_records_inside (o : Order.t) (min_wl max_wl : Q)
    (line_list : list (string * Q)) (r : Traced.t) :
  In r (order_records zGetTrace o min_wl max_wl line_list) ->
  exists line_name wl_angstrom x y,
    In (line_name, wl_angstrom) line_list
    /\ r = Traced.mk line_name (Order.m o) (wl_angstrom / 10000) (x, y)
    /\ zGetTrace (Link.mk (Order.m o) (wl_angstrom / 10000)) = TraceTuple x y
    /\ min_wl < wl_angstrom / 10000 /\ wl_angstrom / 10000 < max_wl.
Proof.
  unfold order_records.
  induction line_list as [|[line_name wl_angstrom] rest IH]; cbn [trace_order].
  - intros [].
  - destruct (in_window min_wl max_wl (wl_angstrom / 10000)) eqn:W.
    + change (zSetWave (wl_angstrom / 10000) (Link.mk (Order.m o) 0))
        with (Link.mk (Order.m o) (wl_angstrom / 10000)).
      destruct (zGetTrace _) as [code|x y] eqn:T; [intros []|].
      rewrite trace_order_records by reflexivity.
      cbn [app]. intros [<-|H].
      * exists line_name, wl_angstrom, x, y.
        apply in_window_lt in W. repeat split; try tauto. now left.
      * destruct (IH H) as (n' & w' & x' & y' & Hin & rest').
        exists n', w', x', y'. split; [now right | exact rest'].
    + intros H. destruct (IH H) as (n' & w' & x' & y' & Hin & rest').
      exists n', w', x', y'. split; [now right | exact rest'].
Qed.

(** After a failure of the tracer nothing more is recorded for the order. *)
Lemma order_records_break (o : Order.t) (min_wl max_wl : Q)
    (before : list (string * Q)) (line_name : string) (wl_angstrom : Q)
    (after : list (string * Q)) (code : Z) :
  in_window min_wl max_wl (wl_angstrom / 10000) = true ->
  zGetTrace (Link.mk (Order.m o) (wl_angstrom / 10000)) = TraceError code ->
  order_records zGetTrace o min_wl max_wl (before ++ (line_name, wl_angstrom) :: after)
  = order_records zGetTrace o min_wl max_wl before.
Proof.
  intros W T. unfold order_records.
  induction before as [|[n' w'] before IH]; cbn [app trace_order].
  - rewrite W.
    change (zSetWave (wl_angstrom / 10000) (Link.mk (Order.m o) 0))
      with (Link.mk (Order.m o) (wl_angstrom / 10000)).
    now rewrite T.
  - destruct (in_window min_wl max_wl (w' / 10000)); [|exact IH].
    destruct (zGetTrace (zSetWave (w' / 10000) _)); [reflexivity|].
    rewrite !(trace_order_records o min_wl max_wl _ _ [_]) by reflexivity.
    f_equal. exact IH.
Qed.

End ScanFacts.

(** * The properties of [trace_lines] *)

(** C9.  In [trace_lines], for every order and every named line, a line whose
    wavelength in microns equals one of the two bounds of the order's window
    is passed over: the loop goes on with the next line, the link and the
    list of results untouched.  The containment test is a strict one on both
    sides, so every record of the result is a line of the list whose
    wavelength lies strictly between the bounds of the window of its order,
    and which the tracer projected. *)
Theorem trace_lines_window_is_open :
  forall (zGetTrace : Link.t -> rayTraceData) (FSRonly : bool),
    (forall (o : Order.t) (line_name : string) (wl_angstrom : Q)
            (rest : list (string * Q)) (ln : Link.t) (lines_xy : list Traced.t),
        wl_angstrom / 10000 == fst (window FSRonly o)
        \/ wl_angstrom / 10000 == snd (window FSRonly o) ->
        trace_order zGetTrace o (fst (window FSRonly o)) (snd (window FSRonly o))
          ((line_name, wl_angstrom) :: rest) ln lines_xy
        = trace_order zGetTrace o (fst (window FSRonly o)) (snd (window FSRonly o))
            rest ln lines_xy)
    /\ (forall (line_list : list (string * Q)) (Orders : list Order.t)
               (ln : Link.t) (r : Traced.t),
           In r (trace_lines zGetTrace line_list Orders ln FSRonly) ->
           exists o line_name wl_angstrom x y,
             In o Orders
             /\ In (line_name, wl_angstrom) line_list
             /\ r = Traced.mk line_name (Order.m o) (wl_angstrom / 10000) (x, y)
             /\ zGetTrace (Link.mk (Order.m o) (wl_angstrom / 10000)) = TraceTuple x y
             /\ fst (window FSRonly o) < wl_angstrom / 10000
             /\ wl_angstrom / 10000 < snd (window FSRonly o)).
Proof.
  intros zGetTrace FSRonly. split.
  - intros o line_name wl_angstrom rest ln lines_xy Hb.
    cbn [trace_order]. now rewrite (in_window_bound _ _ _ Hb).
  - intros line_list Orders ln r. rewrite trace_lines_records.
    rewrite in_flat_map. intros (o & Ho & Hr).
    destruct (order_records_inside _ _ _ _ _ _ Hr)
      as (line_name & wl_angstrom & x & y & Hin & -> & T & Hlo & Hhi).
    exists o, line_name, wl_angstrom, x, y. tauto.
Qed.

(** The line at 5000 angstrom sits on the lower bound 0.5 of the window
    (0.5, 0.6) and is passed over. *)
Lemma trace_lines_window_is_open_witness :
  let o := Order.mk (-40) 0.6 0.5 0.4 0.7 in
  let zGetTrace := fun ln : Link.t => TraceTuple (Link.wave ln) 0 in
  trace_order zGetTrace o (fst (window true o)) (snd (window true o))
    [("edge"%string, 5000)] (Link.mk (-40) 0) []
  = (Link.mk (-40) 0, []).
Proof.
  cbv zeta.
  apply (proj1 (trace_lines_window_is_open
                  (fun ln : Link.t => TraceTuple (Link.wave ln) 0) true)
           (Order.mk (-40) 0.6 0.5 0.4 0.7) "edge"%string 5000 []
           (Link.mk (-40) 0) []).
  left. vm_compute. reflexivity.
Defined.

(** C3, the claim as stated fails.  An order stores its free spectral range
    in the natural order, 0.5 to 0.6 microns; the line at 5500 angstrom lies
    strictly between the two stored values; the window of the scan has its
    lower bound above its upper bound, and the line is not recorded, whatever
    the tracer answers. *)
Lemma fsr_bounds_in_natural_order_reject_every_line :
  let o := Order.mk 40 0.5 0.6 0.4 0.7 in
  (Order.minFSRwl o < 5500 / 10000 /\ 5500 / 10000 < Order.maxFSRwl o)
  /\ ~ (fst (window true o) <= snd (window true o))
  /\ forall (zGetTrace : Link.t -> rayTraceData) (ln : Link.t),
       trace_lines zGetTrace [("line"%string, 5500)] [o] ln true = [].
Proof.
  cbv zeta. split; [split; reflexivity|]. split.
  - intro H. vm_compute in H. now apply H.
  - intros zGetTrace ln. reflexivity.
Qed.

(** C3, amended.  With [FSRonly] the window of [trace_lines] is the pair of
    stored bounds taken in the fixed order ([maxFSRwl], [minFSRwl]), without
    comparing them.  A line is accepted exactly when it lies strictly above
    [maxFSRwl] and strictly below [minFSRwl]: when the bounds are stored
    reversed ([minFSRwl > maxFSRwl], as for negative orders) that is every
    line strictly between the two stored values; when they are stored with
    [minFSRwl <= maxFSRwl] no line is accepted, and a scan over such orders
    records nothing. *)
Theorem fsr_window_is_the_swapped_pair :
  forall (o : Order.t) (line_wl : Q),
    window true o = (Order.maxFSRwl o, Order.minFSRwl o)
    /\ (in_window (fst (window true o)) (snd (window true o)) line_wl = true
        <-> Order.maxFSRwl o < line_wl /\ line_wl < Order.minFSRwl o)
    /\ (Order.minFSRwl o <= Order.maxFSRwl o ->
        in_window (fst (window true o)) (snd (window true o)) line_wl = false)
    /\ (forall (zGetTrace : Link.t -> rayTraceData) (line_list : list (string * Q))
               (Orders : list Order.t) (ln : Link.t),
           (forall o', In o' Orders -> Order.minFSRwl o' <= Order.maxFSRwl o') ->
           trace_lines zGetTrace line_list Orders ln true = []).
Proof.
  intros o line_wl. split; [reflexivity|]. split; [apply in_window_lt|].
  assert (Hnone : forall o' wl, Order.minFSRwl o' <= Order.maxFSRwl o' ->
            in_window (fst (window true o')) (snd (window true o')) wl = false).
  { intros o' wl Hle. apply not_true_iff_false. rewrite in_window_lt.
    cbn [window fst snd]. lra. }
  split; [apply Hnone|].
  intros zGetTrace line_list Orders ln Hall. rewrite trace_lines_records.
  induction Orders as [|o' rest IH]; [reflexivity|].
  cbn [flat_map]. rewrite IH by (intros; apply Hall; now right).
  rewrite app_nil_r.
  assert (Hle : Order.minFSRwl o' <= Order.maxFSRwl o') by (apply Hall; now left).
  clear - Hle Hnone. induction line_list as [|[line_name wl_angstrom] l IHl];
    [reflexivity|].
  rewrite order_records_skip; [exact IHl | now apply Hnone].
Qed.

(** Bounds stored reversed, 0.6 and 0.5: the line at 0.55 is accepted; bounds
    stored as 0.5 and 0.6: it is not. *)
Lemma fsr_window_is_the_swapped_pair_witness :
  in_window (fst (window true (Order.mk (-40) 0.6 0.5 0.4 0.7)))
    (snd (window true (Order.mk (-40) 0.6 0.5 0.4 0.7))) 0.55 = true
  /\ in_window (fst (window true (Order.mk 40 0.5 0.6 0.4 0.7)))
       (snd (window true (Order.mk 40 0.5 0.6 0.4 0.7))) 0.55 = false.
Proof.
  split.
  - apply (proj1 (proj2 (fsr_window_is_the_swapped_pair
                           (Order.mk (-40) 0.6 0.5 0.4 0.7) 0.55))).
    split; reflexivity.
  - apply (proj1 (proj2 (proj2 (fsr_window_is_the_swapped_pair
                                  (Order.mk 40 0.5 0.6 0.4 0.7) 0.55)))).
    cbn. discriminate.
Defined.

(** C2, the claim as stated fails.  One order with the window (0.5, 0.6) and
    two lines inside it; the tracer fails on the first line, at 0.54, and
    would project the second, at 0.56, to (1, 2).  The scan records
    nothing: the second pair is skipped as well. *)
Lemma tracer_failure_drops_later_lines_of_the_order :
  let o := Order.mk (-40) 0.6 0.5 0.4 0.7 in
  let zGetTrace := fun ln : Link.t =>
    if Link.wave ln =? 0.54 then TraceError (-1) else TraceTuple 1 2 in
  in_window (fst (window true o)) (snd (window true o)) (5600 / 10000) = true
  /\ zGetTrace (Link.mk (Order.m o) (5600 / 10000)) = TraceTuple 1 2
  /\ trace_lines zGetTrace [("A"%string, 5400); ("B"%string, 5600)] [o]
       (Link.mk 0 0) true = [].
Proof. cbv zeta. repeat split. Qed.

(** C2, amended.  In [trace_lines], when the ray tracer reports failure
    (returns an [int]) for one (line, order) pair, the loop over the lines of
    that order is left: that pair and the remaining lines of the same order
    are skipped, and what the order recorded before stays.  The scan goes on
    with all remaining orders and is never aborted as a whole: the result is
    the records of the orders before, then those of the order, then those of
    the orders after, each as if scanned alone. *)
Theorem tracer_failure_ends_the_order_only :
  forall (zGetTrace : Link.t -> rayTraceData) (FSRonly : bool) (ln : Link.t),
    (forall (o : Order.t) (before : list (string * Q)) (line_name : string)
            (wl_angstrom : Q) (after : list (string * Q)) (code : Z),
        in_window (fst (window FSRonly o)) (snd (window FSRonly o))
          (wl_angstrom / 10000) = true ->
        zGetTrace (Link.mk (Order.m o) (wl_angstrom / 10000)) = TraceError code ->
        trace_lines zGetTrace (before ++ (line_name, wl_angstrom) :: after) [o]
          ln FSRonly
        = trace_lines zGetTrace before [o] ln FSRonly)
    /\ (forall (line_list : list (string * Q)) (orders_before : list Order.t)
               (o : Order.t) (orders_after : list Order.t),
           trace_lines zGetTrace line_list (orders_before ++ o :: orders_after)
             ln FSRonly
           = trace_lines zGetTrace line_list orders_before ln FSRonly
             ++ trace_lines zGetTrace line_list [o] ln FSRonly
             ++ trace_lines zGetTrace line_list orders_after ln FSRonly).
Proof.
  intros zGetTrace FSRonly ln. split.
  - intros o before line_name wl_angstrom after code W T.
    rewrite !trace_lines_records. cbn [flat_map]. rewrite !app_nil_r.
    now apply order_records_break with (code := code).
  - intros line_list orders_before o orders_after.
    rewrite !trace_lines_records, flat_map_app. cbn [flat_map].
    now rewrite app_nil_r.
Qed.

(** The tracer fails on the second of three lines of the order at -40 and the
    order at -41 is scanned all the same. *)
Lemma tracer_failure_ends_the_order_only_witness :
  let zGetTrace := fun ln : Link.t =>
    if (Link.surface_parameter ln =? -40)%Z && (Link.wave ln =? 0.54)
    then TraceError (-1) else TraceTuple (Link.wave ln) 0 in
  let o := Order.mk (-40) 0.6 0.5 0.4 0.7 in
  trace_lines zGetTrace
    ([("A"%string, 5200)] ++ ("B"%string, 5400) :: [("C"%string, 5600)]) [o]
    (Link.mk 0 0) true
  = trace_lines zGetTrace [("A"%string, 5200)] [o] (Link.mk 0 0) true.
Proof.
  cbv zeta.
  apply (proj1 (tracer_failure_ends_the_order_only
                  (fun ln : Link.t =>
                     if (Link.surface_parameter ln =? -40)%Z && (Link.wave ln =? 0.54)
                     then TraceError (-1) else TraceTuple (Link.wave ln) 0)
                  true (Link.mk 0 0))
           (Order.mk (-40) 0.6 0.5 0.4 0.7) [("A"%string, 5200)] "B"%string 5400
           [("C"%string, 5600)] (-1)%Z);
    reflexivity.
Defined.

(** * The properties of [wavelength_to_rgb] *)

(** Settles the band tests of the mapper from the bounds in the context. *)
Ltac settle_band_tests :=
  repeat match goal with
  | |- context [Qle_bool ?a ?b] =>
      first
        [ replace (Qle_bool a b) with true
            by (symmetry; apply Qle_bool_iff; lra)
        | replace (Qle_bool a b) with false
            by (symmetry; apply not_true_iff_false; rewrite Qle_bool_iff; lra) ]
  end.

(** C6, the claim as stated fails.  At 465 nm, the middle of the 440-490 band,
    with [gamma = 2]: the fractional band position is 1/2 and the G channel
    is its square 1/4 (Python: [wavelength_to_rgb(465, 2)[1] == 0.25]), not
    the linear ramp value. *)
Lemma interior_ramp_is_raised_to_gamma :
  (465 - 440) / (490 - 440) == 1 # 2
  /\ snd (fst (wavelength_to_rgb whole_power 465 2)) == 1 # 4
  /\ ~ snd (fst (wavelength_to_rgb whole_power 465 2)) == (465 - 440) / (490 - 440).
Proof.
  split; [reflexivity|]. split; [reflexivity|].
  intro H. vm_compute in H. discriminate H.
Qed.

(** C6, amended.  In [wavelength_to_rgb], for every wavelength inside
    [380, 750] nm, the gamma exponent is applied to every channel that varies
    with the wavelength: to the edge-attenuated R and B of the 380-440 band
    and the edge-attenuated R of the 645-750 band, and equally to the ramps
    of the interior bands (G in 440-490, B in 490-510, R in 510-580, G in
    580-645), each of which is the fractional band position raised to
    [gamma].  Only the constant channels, 0 and 1, carry no exponent. *)
Theorem wavelength_to_rgb_bands :
  forall (fpow : Q -> Q -> Q) (gamma wavelength : Q),
    (380 <= wavelength /\ wavelength <= 440 ->
     wavelength_to_rgb fpow wavelength gamma
     = (fpow ((-(wavelength - 440) / (440 - 380))
              * (0.3 + 0.7 * (wavelength - 380) / (440 - 380))) gamma,
        0,
        fpow (1 * (0.3 + 0.7 * (wavelength - 380) / (440 - 380))) gamma))
    /\ (440 < wavelength /\ wavelength <= 490 ->
        wavelength_to_rgb fpow wavelength gamma
        = (0, fpow ((wavelength - 440) / (490 - 440)) gamma, 1))
    /\ (490 < wavelength /\ wavelength <= 510 ->
        wavelength_to_rgb fpow wavelength gamma
        = (0, 1, fpow (-(wavelength - 510) / (510 - 490)) gamma))
    /\ (510 < wavelength /\ wavelength <= 580 ->
        wavelength_to_rgb fpow wavelength gamma
        = (fpow ((wavelength - 510) / (580 - 510)) gamma, 1, 0))
    /\ (580 < wavelength /\ wavelength <= 645 ->
        wavelength_to_rgb fpow wavelength gamma
        = (1, fpow (-(wavelength - 645) / (645 - 580)) gamma, 0))
    /\ (645 < wavelength /\ wavelength <= 750 ->
        wavelength_to_rgb fpow wavelength gamma
        = (fpow (1 * (0.3 + 0.7 * (750 - wavelength) / (750 - 645))) gamma, 0, 0)).
Proof.
  intros fpow gamma wavelength.
  repeat split; intros [Hlo Hhi]; unfold wavelength_to_rgb;
    settle_band_tests; reflexivity.
Qed.

(** At 465 nm the G channel is the band position raised to [gamma]. *)
Lemma wavelength_to_rgb_bands_witness :
  wavelength_to_rgb whole_power 465 2
  = (0, whole_power ((465 - 440) / (490 - 440)) 2, 1).
Proof.
  apply (proj1 (proj2 (wavelength_to_rgb_bands whole_power 2 465))).
  split; lra.
Defined.

(** * The properties of [plot_echellogram] *)

Lemma drawn_from_incl (fpow : Q -> Q -> Q) (points points' : list Point.t) (a : artist) :
  incl points points' -> drawn_from fpow points a -> drawn_from fpow points' a.
Proof.
  intros Hi. destruct a as [hs vs c lw|h v s al|verts]; cbn; [| |tauto].
  - intros (ps & Hps & E). exists ps. split; [|exact E].
    intros q Hq. apply Hi, Hps, Hq.
  - intros (p & Hp & E). exists p. split; [apply Hi, Hp | exact E].
Qed.

Lemma drawn_points_app (l1 l2 : list artist) :
  drawn_points (l1 ++ l2) = (drawn_points l1 + drawn_points l2)%nat.
Proof.
  induction l1 as [|a l1 IH]; [reflexivity|].
  destruct a; cbn [app drawn_points]; rewrite IH; lia.
Qed.

Lemma last_In {A : Type} (l : list A) (a : A) : In (last (a :: l) a) (a :: l).
Proof.
  revert a. induction l as [|b l IH]; intro a; [now left|].
  change (last (a :: b :: l) a) with (last (b :: l) a).
  right. destruct l as [|c l]; [now left|].
  change (last (b :: c :: l) a) with (last (c :: l) a).
  specialize (IH b). change (last (b :: c :: l) b) with (last (c :: l) b) in IH.
  replace (last (c :: l) a) with (last (c :: l) b); [exact IH|].
  clear. revert c. induction l as [|d l IH]; intro c; [reflexivity|].
  change (last (d :: l) b = last (d :: l) a). apply IH.
Qed.

Section EmittedFacts.

Variable fpow : Q -> Q -> Q.

Lemma order_labels_texts (xl yl : Q * Q) (m : Z) (acc : list Point.t) :
  Forall (fun a => is_text a = true /\ drawn_from fpow acc a)
    (order_labels xl yl m acc).
Proof.
  unfold order_labels. destruct acc as [|first acc]; [constructor|].
  destruct (m mod 5 =? 0)%Z; [|constructor].
  apply Forall_app. split.
  - destruct (start_label_test _ _ _ _); constructor; [|constructor].
    split; [reflexivity|]. exists first. split; [now left | now split].
  - destruct (end_label_test _ _ _ _); constructor; [|constructor].
    split; [reflexivity|]. exists (last (first :: acc) first).
    split; [apply last_In | now split].
Qed.

Lemma drawn_points_labels (xl yl : Q * Q) (m : Z) (acc : list Point.t) :
  drawn_points (order_labels xl yl m acc) = 0%nat.
Proof.
  pose proof (order_labels_texts xl yl m acc) as H.
  induction H as [|a l [Ha _] _ IH]; [reflexivity|].
  destruct a; try discriminate Ha. exact IH.
Qed.

(** The number of points drawn: every point read, once more for each point
    that changes the order, and once more for the last point. *)
Lemma emitted_drawn_points (xl yl : Q * Q) (points : list Point.t) :
  forall (w : Z) (acc : list Point.t),
    drawn_points (emitted fpow xl yl w acc points)
    = match points with
      | [] => 0%nat
      | _ :: _ =>
          (List.length acc + List.length points + order_changes w points + 1)%nat
      end.
Proof.
  induction points as [|p rest IH]; intros w acc; [reflexivity|].
  cbn [emitted order_changes]. rewrite drawn_points_app.
  destruct (Point.m p =? w)%Z.
  - destruct rest as [|q rest].
    + cbn. rewrite !length_map, !length_app. cbn. lia.
    + rewrite IH. cbn [drawn_points List.length order_changes].
      rewrite length_app. cbn. lia.
  - cbn [drawn_points order_line]. rewrite drawn_points_labels.
    rewrite length_map.
    destruct rest as [|q rest].
    + cbn. lia.
    + rewrite IH. cbn [drawn_points List.length order_changes]. lia.
Qed.

(** Once a point has been read no polyline is empty. *)
Lemma emitted_not_empty (xl yl : Q * Q) (points : list Point.t) :
  forall (w : Z) (acc : list Point.t),
    acc <> [] ->
    Forall (fun a => empty_line a = false) (emitted fpow xl yl w acc points).
Proof.
  assert (Hline : forall ps, ps <> [] -> empty_line (order_line fpow ps) = false).
  { intros [|q ps] Hq; [congruence | reflexivity]. }
  assert (Hlab : forall m acc,
            Forall (fun a => empty_line a = false) (order_labels xl yl m acc)).
  { intros m acc. eapply Forall_impl; [|apply order_labels_texts].
    intros a [Ha _]. now destruct a. }
  induction points as [|p rest IH]; intros w acc Hacc; [constructor|].
  cbn [emitted]. apply Forall_app. split.
  - destruct (Point.m p =? w)%Z; [constructor|].
    constructor; [now apply Hline | apply Hlab].
  - destruct rest as [|q rest].
    + constructor; [|constructor]. apply Hline.
      destruct (Point.m p =? w)%Z; [destruct acc|]; discriminate.
    + apply IH. destruct (Point.m p =? w)%Z; [destruct acc|]; discriminate.
Qed.

(** Everything the loop draws is drawn from the points accumulated and
    read. *)
Lemma emitted_drawn_from (xl yl : Q * Q) (points : list Point.t) :
  forall (w : Z) (acc : list Point.t),
    Forall (drawn_from fpow (acc ++ points)) (emitted fpow xl yl w acc points).
Proof.
  induction points as [|p rest IH]; intros w acc; [constructor|].
  cbn [emitted]. apply Forall_app. split.
  - destruct (Point.m p =? w)%Z; [constructor|]. constructor.
    + exists acc. split; [apply incl_appl, incl_refl | reflexivity].
    + eapply Forall_impl; [|apply order_labels_texts].
      intros a [_ Ha]. eapply drawn_from_incl; [|exact Ha].
      apply incl_appl, incl_refl.
  - assert (Hacc : incl ((if (Point.m p =? w)%Z then acc ++ [p] else [p; p]) ++ [p])
                     (acc ++ p :: rest)).
    { intros q Hq. apply in_app_iff. destruct (Point.m p =? w)%Z.
      - rewrite !in_app_iff in Hq. cbn in Hq. cbn. tauto.
      - cbn in Hq. cbn. tauto. }
    destruct rest as [|q rest].
    + constructor; [|constructor]. eexists. split; [exact Hacc | reflexivity].
    + eapply Forall_impl; [|apply IH].
      intros a Ha. eapply drawn_from_incl; [|exact Ha].
      intros r Hr. apply in_app_iff in Hr. destruct Hr as [Hr|Hr].
      * apply Hacc. apply in_app_iff. now left.
      * apply in_app_iff. right. now right.
Qed.

(** The whole of [plot_echellogram]: the limits it sets and, in order, what
    it draws. *)
Lemma plot_echellogram_artists (ax : Axes.t) (SpectralFormat : list Point.t)
    (lines_xy : list Traced.t) (corner : Q) (corners : list Q) :
  plot_echellogram fpow ax SpectralFormat lines_xy (corner :: corners)
  = Some (Axes.mk (nonsingular (- (Qabs corner * 1.25)) (Qabs corner * 1.25))
            (nonsingular (- (Qabs corner * 1.25)) (Qabs corner * 1.25))
            (Axes.artists ax
             ++ emitted fpow
                  (nonsingular (- (Qabs corner * 1.25)) (Qabs corner * 1.25))
                  (nonsingular (- (Qabs corner * 1.25)) (Qabs corner * 1.25))
                  0 [] SpectralFormat
             ++ flat_map
                  (line_label
                     (nonsingular (- (Qabs corner * 1.25)) (Qabs corner * 1.25))
                     (nonsingular (- (Qabs corner * 1.25)) (Qabs corner * 1.25)))
                  lines_xy
             ++ [detector (Qabs corner)])).
Proof.
  unfold plot_echellogram. rewrite assembly_emitted, label_lines_labels.
  unfold add_artist, add_artists, set_xlim, set_ylim.
  cbn [Axes.xlim Axes.ylim Axes.artists]. now rewrite <- !app_assoc.
Qed.

End EmittedFacts.

(** C1, what the code does.  The polylines drawn by the assembly loop hold,
    in total, every point read, one more for each point whose order differs
    from the order in force before it (the first point counts when its order
    is not 0), and one more for the last point: a point that opens a run is
    appended twice and the final point once again.  The total is the length
    of the input only for the empty input.  For the single point
    [(1, 0.9, 1, 2)] the loop draws an empty polyline and a polyline of three
    points. *)
Theorem assembly_drawn_points :
  forall (fpow : Q -> Q -> Q),
    (forall (SpectralFormat : list Point.t) (ax : Axes.t),
        drawn_points (Axes.artists (Loop.ax (assembly fpow SpectralFormat ax)))
        = (drawn_points (Axes.artists ax)
           + match SpectralFormat with
             | [] => 0
             | _ :: _ =>
                 List.length SpectralFormat + order_changes 0 SpectralFormat + 1
             end)%nat)
    /\ Axes.artists (Loop.ax (assembly fpow [Point.mk 1 0.9 1 2] blank_axes))
       = [Line2D [] [] ColorK 1.2; Line2D [2; 2; 2] [1; 1; 1] ColorK 1.2].
Proof.
  intro fpow. split; [|reflexivity].
  intros SpectralFormat ax. rewrite assembly_emitted.
  cbn [add_artists Axes.artists].
  rewrite drawn_points_app, emitted_drawn_points.
  destruct SpectralFormat; cbn [List.length]; lia.
Qed.

(** C7, at the failing input.  On the single point [(1, 0.9, 1, 2)] the first
    polyline drawn is empty, [ax.plot([], [], color="k")]: the order 1
    differs from the initial working order 0 and the accumulators, still
    empty, are drawn before the point opens its run. *)
Lemma first_polyline_drawn_is_empty :
  exists a : artist,
    empty_line a = true
    /\ forall fpow : Q -> Q -> Q,
         In a (Axes.artists (Loop.ax (assembly fpow [Point.mk 1 0.9 1 2] blank_axes))).
Proof.
  exists (Line2D [] [] ColorK 1.2). split; [reflexivity|].
  intro fpow. now left.
Qed.

(** C7, what the code does.  When the order of the first point differs from
    the initial working order 0, the loop first draws the accumulators while
    they are still empty, as the empty polyline
    [ax.plot([], [], color="k")]; when it is 0 there is no such polyline.
    Every polyline drawn after that holds at least one point. *)
Theorem assembly_polylines_not_empty_after_the_first :
  forall (fpow : Q -> Q -> Q) (SpectralFormat : list Point.t) (ax : Axes.t),
  exists first_drawn later : list artist,
    Axes.artists (Loop.ax (assembly fpow SpectralFormat ax))
    = Axes.artists ax ++ first_drawn ++ later
    /\ first_drawn
       = match SpectralFormat with
         | [] => []
         | point :: _ =>
             if (Point.m point =? 0)%Z then [] else [Line2D [] [] ColorK 1.2]
         end
    /\ Forall (fun a => empty_line a = false) later.
Proof.
  intros fpow SpectralFormat ax. rewrite assembly_emitted.
  cbn [add_artists Axes.artists].
  destruct SpectralFormat as [|p rest].
  - exists [], []. repeat split. constructor.
  - cbn [emitted order_labels].
    assert (Hlater : forall acc, acc <> [] ->
              Forall (fun a => empty_line a = false)
                match rest with
                | [] => [order_line fpow (acc ++ [p])]
                | _ :: _ => emitted fpow (Axes.xlim ax) (Axes.ylim ax) (Point.m p) acc rest
                end).
    { intros acc Hacc. destruct rest as [|q rest].
      - constructor; [|constructor]. destruct acc; [congruence | reflexivity].
      - now apply emitted_not_empty. }
    destruct (Point.m p =? 0)%Z.
    + eexists [], _. split; [reflexivity|]. split; [reflexivity|].
      apply Hlater. discriminate.
    + eexists [_], _. split; [reflexivity|]. split; [reflexivity|].
      apply Hlater. discriminate.
Qed.

(** C4, the claim as stated fails.  The single point [(1, 0.9, 1, 2)], at
    900 nm: the mapper returns the triple of sum 0 for the mean wavelength of
    its polyline, and the polyline is drawn with the colour ["k"], which
    paints [(0, 0, 0)], black. *)
Lemma sentinel_polyline_is_painted_black :
  exists c : color,
    painted c = (0, 0, 0)
    /\ forall fpow : Q -> Q -> Q,
         np_sum_col (order_col fpow [0.9; 0.9; 0.9]) == 0
         /\ In (Line2D [2; 2; 2] [1; 1; 1] c 1.2)
              (Axes.artists
                 (Loop.ax (assembly fpow [Point.mk 1 0.9 1 2] blank_axes))).
Proof.
  exists ColorK. split; [reflexivity|].
  intro fpow. split; [reflexivity|]. right. now left.
Qed.

(** C4, amended.  Every polyline drawn by [plot_echellogram] is the
    coordinates of points of the input, plotted with line width 1.2; when the
    mapper returns a triple of sum 0 for the mean wavelength of those points
    (the no-visible-colour sentinel) the polyline is drawn in the fixed
    colour ["k"], which is black; otherwise it is drawn in the mapped
    colour. *)
Theorem sentinel_polyline_is_drawn_in_k :
  forall (fpow : Q -> Q -> Q) (ax : Axes.t) (SpectralFormat : list Point.t)
         (lines_xy : list Traced.t) (corner : Q) (corners : list Q),
  exists (xl yl : Q * Q) (new : list artist),
    plot_echellogram fpow ax SpectralFormat lines_xy (corner :: corners)
    = Some (Axes.mk xl yl (Axes.artists ax ++ new))
    /\ painted ColorK = (0, 0, 0)
    /\ Forall (fun a =>
                 match a with
                 | Line2D hs vs c lw =>
                     exists ps : list Point.t,
                       incl ps SpectralFormat
                       /\ hs = map Point.y ps /\ vs = map Point.x ps /\ lw = 1.2
                       /\ (np_sum_col (order_col fpow (map Point.wl ps)) == 0 ->
                           c = ColorK)
                       /\ (~ np_sum_col (order_col fpow (map Point.wl ps)) == 0 ->
                           c = ColorRGB (order_col fpow (map Point.wl ps)))
                 | _ => True
                 end) new.
Proof.
  intros fpow ax SpectralFormat lines_xy corner corners.
  rewrite plot_echellogram_artists. eexists _, _, _.
  split; [reflexivity|]. split; [reflexivity|].
  apply Forall_app. split.
  - eapply Forall_impl; [|apply emitted_drawn_from].
    intros [hs vs c lw|h v s al|verts]; cbn [drawn_from app]; [|trivial|trivial].
    intros (ps & Hps & E). injection E as -> -> -> ->.
    exists ps. repeat split; try assumption; unfold order_color.
    + intros H. apply Qeq_bool_iff in H. now rewrite H.
    + intros H. destruct (np_sum_col _ =? 0) eqn:E; [|reflexivity].
      apply Qeq_bool_iff in E. contradiction.
  - apply Forall_app. split.
    + apply Forall_flat_map. apply Forall_forall. intros line _.
      unfold line_label. destruct (line_label_test _ _ _ _); repeat constructor.
    + repeat constructor.
Qed.

(** C5, what the code does.  Two orders, 4 and 5, one point each, both well
    inside the viewport of half-width 10.  The polyline of order 4 is closed
    by the point of order 5, and it is that point's order that the test
    [m % 5 == 0] reads: the polyline of order 4 gets both labels, the order
    label reading 5, and the polyline of order 5, the last one, gets none. *)
Theorem labels_are_gated_by_the_closing_point :
  forall fpow : Q -> Q -> Q,
    option_map Axes.artists
      (plot_echellogram fpow blank_axes
         [Point.mk 4 0.9 1 2; Point.mk 5 0.9 3 4] [] [8])
    = Some [Line2D [] [] ColorK 1.2;
            Line2D [2; 2] [1; 1] ColorK 1.2;
            Text 2 1 (WavelengthText (0.9 * 1000) false) AlignLeft;
            Text 2 1 (OrderText 5 false) AlignRight;
            Line2D [4; 4; 4] [3; 3; 3] ColorK 1.2;
            detector 8].
Proof. intro fpow. reflexivity. Qed.

(** C8, what the code does.  The viewport has half-width 10 and the polyline
    of order 5 is closed by a point of order 10.
    - Its first sample is [(1, -9)] and its last sample [(3, 4)]: the last
      sample is inside the viewport, its margin included, and no order label
      is drawn, because the test reads the first sample ([-9 - 3 > -10]
      fails).
    - Its first sample is [(1, 2)] and its last sample [(3, 50)]: the last
      sample is outside the viewport and the order label is drawn there, at
      the plot position [(50, 3)], because the first sample passes the
      test. *)
Theorem order_label_is_tested_on_the_first_sample :
  forall fpow : Q -> Q -> Q,
    option_map Axes.artists
      (plot_echellogram fpow blank_axes
         [Point.mk 5 0.9 1 (-9); Point.mk 5 0.9 3 4; Point.mk 10 0.9 5 6] [] [8])
    = Some [Line2D [] [] ColorK 1.2;
            Line2D [-9; -9; 4] [1; 1; 3] ColorK 1.2;
            Text (-9) 1 (WavelengthText (0.9 * 1000) false) AlignLeft;
            Line2D [6; 6; 6] [5; 5; 5] ColorK 1.2;
            detector 8]
    /\ option_map Axes.artists
         (plot_echellogram fpow blank_axes
            [Point.mk 5 0.9 1 2; Point.mk 5 0.9 3 50; Point.mk 10 0.9 5 6] [] [8])
       = Some [Line2D [] [] ColorK 1.2;
               Line2D [2; 2; 50] [1; 1; 3] ColorK 1.2;
               Text 2 1 (WavelengthText (0.9 * 1000) false) AlignLeft;
               Text 50 3 (OrderText 10 false) AlignRight;
               Line2D [6; 6; 6] [5; 5; 5] ColorK 1.2;
               detector 8].
Proof. intro fpow. split; reflexivity. Qed.

Lemma line_label_test_inside (l : Q * Q) (x y : Q) :
  line_label_test l l x y = true <-> inside_viewport l l y x.
Proof.
  unfold line_label_test, inside_viewport.
  rewrite !andb_true_iff, !Qltb_lt. tauto.
Qed.



(** * Further properties of [wavelength_to_rgb] *)

Lemma band_cases (w : Q) :
  (w < 380 \/ 750 < w)
  \/ (380 <= w /\ w <= 440) \/ (440 < w /\ w <= 490) \/ (490 < w /\ w <= 510)
  \/ (510 < w /\ w <= 580) \/ (580 < w /\ w <= 645) \/ (645 < w /\ w <= 750).
Proof.
  destruct (Qlt_le_dec w 380); [tauto|].
  destruct (Qlt_le_dec 440 w); [|tauto].
  destruct (Qlt_le_dec 490 w); [|tauto].
  destruct (Qlt_le_dec 510 w); [|tauto].
  destruct (Qlt_le_dec 580 w); [|tauto].
  destruct (Qlt_le_dec 645 w); [|tauto].
  destruct (Qlt_le_dec 750 w); tauto.
Qed.

(** The rising and the falling ramp of a band stay between 0 and 1. *)
Lemma ramp_bounds (a lo hi : Q) :
  lo < hi -> lo <= a -> a <= hi ->
  (0 <= (a - lo) / (hi - lo) /\ (a - lo) / (hi - lo) <= 1)
  /\ (0 <= - (a - hi) / (hi - lo) /\ - (a - hi) / (hi - lo) <= 1).
Proof.
  intros Hlt Hlo Hhi.
  assert (Hd : 0 < hi - lo) by lra.
  repeat split.
  - apply Qle_shift_div_l; [exact Hd | lra].
  - apply Qle_shift_div_r; [exact Hd | lra].
  - apply Qle_shift_div_l; [exact Hd | lra].
  - apply Qle_shift_div_r; [exact Hd | lra].
Qed.

(** The attenuation of an edge band stays between 0.3 and 1. *)
Lemma attenuation_bounds (t d : Q) :
  0 < d -> 0 <= t -> t <= d ->
  0.3 <= 0.3 + 0.7 * t / d /\ 0.3 + 0.7 * t / d <= 1.
Proof.
  intros Hd Ht Htd.
  assert (H0 : 0 <= 0.7 * t / d) by (apply Qle_shift_div_l; [exact Hd | lra]).
  assert (H1 : 0.7 * t / d <= 0.7) by (apply Qle_shift_div_r; [exact Hd | lra]).
  split; lra.
Qed.

(** X1.  For a wavelength below 380 nm or above 750 nm [wavelength_to_rgb]
    returns exactly [(0, 0, 0)], whatever [gamma] is: no band test holds and
    the power operator is not reached. *)
Theorem wavelength_to_rgb_outside_visible :
  forall (fpow : Q -> Q -> Q) (gamma wavelength : Q),
    wavelength < 380 \/ 750 < wavelength ->
    wavelength_to_rgb fpow wavelength gamma = (0, 0, 0).
Proof.
  intros fpow gamma wavelength H. unfold wavelength_to_rgb.
  destruct H; settle_band_tests; reflexivity.
Qed.

Lemma wavelength_to_rgb_outside_visible_witness :
  wavelength_to_rgb whole_power 900 default_gamma = (0, 0, 0).
Proof.
  apply (wavelength_to_rgb_outside_visible whole_power default_gamma 900).
  right. reflexivity.
Defined.

(** X2.  The triple of sum 0, which [plot_echellogram] reads as "no visible
    colour", is returned for the wavelengths outside [380, 750] nm and for no
    other: inside the range one channel at least is positive.  This holds for
    every power operator that, at the given [gamma], is non-negative on
    non-negative bases and positive on positive ones, as [**] is. *)
Theorem wavelength_to_rgb_sum_zero_iff :
  forall (fpow : Q -> Q -> Q) (gamma : Q),
    (forall x : Q, 0 <= x -> 0 <= fpow x gamma) ->
    (forall x : Q, 0 < x -> 0 < fpow x gamma) ->
    forall wavelength : Q,
      np_sum_col (wavelength_to_rgb fpow wavelength gamma) == 0
      <-> (wavelength < 380 \/ 750 < wavelength).
Proof.
  intros fpow gamma Hnn Hpos w.
  destruct (band_cases w) as [Hout|Hin].
  - split; [intros _; exact Hout|]. intros _.
    unfold wavelength_to_rgb. destruct Hout; settle_band_tests; reflexivity.
  - assert (Hs : 0 < np_sum_col (wavelength_to_rgb fpow w gamma)).
    { unfold wavelength_to_rgb, np_sum_col, np_sum.
      destruct Hin as [[H1 H2]|[[H1 H2]|[[H1 H2]|[[H1 H2]|[[H1 H2]|[H1 H2]]]]]];
        settle_band_tests; cbn [andb fold_left].
      - destruct (attenuation_bounds (w - 380) (440 - 380)) as [A1 A2]; try lra.
        destruct (ramp_bounds w 380 440) as [_ [R1 R2]]; try lra.
        pose proof (Hpos (1 * (0.3 + 0.7 * (w - 380) / (440 - 380))) ltac:(lra)).
        pose proof (Hnn (- (w - 440) / (440 - 380)
                         * (0.3 + 0.7 * (w - 380) / (440 - 380))) ltac:(nra)).
        lra.
      - destruct (ramp_bounds w 440 490) as [[R1 R2] _]; try lra.
        pose proof (Hnn _ R1). lra.
      - destruct (ramp_bounds w 490 510) as [_ [R1 R2]]; try lra.
        pose proof (Hnn _ R1). lra.
      - destruct (ramp_bounds w 510 580) as [[R1 R2] _]; try lra.
        pose proof (Hnn _ R1). lra.
      - destruct (ramp_bounds w 580 645) as [_ [R1 R2]]; try lra.
        pose proof (Hnn _ R1). lra.
      - destruct (attenuation_bounds (750 - w) (750 - 645)) as [A1 A2]; try lra.
        pose proof (Hpos (1 * (0.3 + 0.7 * (750 - w) / (750 - 645))) ltac:(lra)).
        lra. }
    split; [intro E; rewrite E in Hs; lra | intros [H|H]; lra].
Qed.

(** With [gamma = 2], where the power is the square: 465 nm is inside the
    range and its triple does not sum to 0. *)
Lemma wavelength_to_rgb_sum_zero_iff_witness :
  np_sum_col (wavelength_to_rgb whole_power 465 2) == 0
  <-> (465 < 380 \/ 750 < 465).
Proof.
  apply (wavelength_to_rgb_sum_zero_iff whole_power 2).
  - intros x Hx. change (whole_power x 2) with (x * x). nra.
  - intros x Hx. change (whole_power x 2) with (x * x). nra.
Defined.

(** X3.  Every channel of the triple lies between 0 and 1, for every
    wavelength, provided the power operator at the given [gamma] maps the
    interval [0, 1] into itself, as [**] does for a positive [gamma]: every
    base handed to it is the position in a band, an attenuation between 0.3
    and 1, or their product. *)
Theorem wavelength_to_rgb_channels_in_unit_interval :
  forall (fpow : Q -> Q -> Q) (gamma : Q),
    (forall x : Q, 0 <= x /\ x <= 1 -> 0 <= fpow x gamma /\ fpow x gamma <= 1) ->
    forall wavelength : Q,
      let '(R, G, B) := wavelength_to_rgb fpow wavelength gamma in
      (0 <= R /\ R <= 1) /\ (0 <= G /\ G <= 1) /\ (0 <= B /\ B <= 1).
Proof.
  intros fpow gamma Hunit w.
  unfold wavelength_to_rgb.
  destruct (band_cases w) as [Hout|Hin].
  - destruct Hout; settle_band_tests; cbn [andb]; lra.
  - destruct Hin as [[H1 H2]|[[H1 H2]|[[H1 H2]|[[H1 H2]|[[H1 H2]|[H1 H2]]]]]];
      settle_band_tests; cbn [andb].
    + destruct (attenuation_bounds (w - 380) (440 - 380)) as [A1 A2]; try lra.
      destruct (ramp_bounds w 380 440) as [_ [R1 R2]]; try lra.
      repeat split; try lra; apply Hunit; split; nra.
    + destruct (ramp_bounds w 440 490) as [R _]; try lra.
      repeat split; try lra; now apply Hunit.
    + destruct (ramp_bounds w 490 510) as [_ R]; try lra.
      repeat split; try lra; now apply Hunit.
    + destruct (ramp_bounds w 510 580) as [R _]; try lra.
      repeat split; try lra; now apply Hunit.
    + destruct (ramp_bounds w 580 645) as [_ R]; try lra.
      repeat split; try lra; now apply Hunit.
    + destruct (attenuation_bounds (750 - w) (750 - 645)) as [A1 A2]; try lra.
      repeat split; try lra; apply Hunit; split; lra.
Qed.

Lemma wavelength_to_rgb_channels_in_unit_interval_witness :
  let '(R, G, B) := wavelength_to_rgb whole_power 400 2 in
  (0 <= R /\ R <= 1) /\ (0 <= G /\ G <= 1) /\ (0 <= B /\ B <= 1).
Proof.
  apply (wavelength_to_rgb_channels_in_unit_interval whole_power 2).
  intros x Hx. change (whole_power x 2) with (x * x). split; nra.
Defined.

(** * Further properties of [trace_lines] *)

Section ScanProperties.

Variable zGetTrace : Link.t -> rayTraceData.

(** The records of one order, line by line. *)
Lemma order_records_cons (o : Order.t) (min_wl max_wl : Q) (line_name : string)
    (wl_angstrom : Q) (rest : list (string * Q)) :
  order_records zGetTrace o min_wl max_wl ((line_name, wl_angstrom) :: rest)
  = if in_window min_wl max_wl (wl_angstrom / 10000) then
      match zGetTrace (Link.mk (Order.m o) (wl_angstrom / 10000)) with
      | TraceError _ => []
      | TraceTuple x y =>
          Traced.mk line_name (Order.m o) (wl_angstrom / 10000) (x, y)
          :: order_records zGetTrace o min_wl max_wl rest
      end
    else order_records zGetTrace o min_wl max_wl rest.
Proof.
  unfold order_records at 1. cbn [trace_order].
  destruct (in_window min_wl max_wl (wl_angstrom / 10000)); [|reflexivity].
  change (zSetWave (wl_angstrom / 10000) (Link.mk (Order.m o) 0))
    with (Link.mk (Order.m o) (wl_angstrom / 10000)).
  destruct (zGetTrace _); [reflexivity|].
  now rewrite trace_order_records.
Qed.

Lemma order_records_length (o : Order.t) (min_wl max_wl : Q)
    (line_list : list (string * Q)) :
  (List.length (order_records zGetTrace o min_wl max_wl line_list)
   <= List.length line_list)%nat.
Proof.
  induction line_list as [|[line_name wl_angstrom] rest IH]; [apply Nat.le_refl|].
  rewrite order_records_cons.
  destruct (in_window _ _ _); [|cbn [List.length]; lia].
  destruct (zGetTrace _); cbn [List.length]; lia.
Qed.

Lemma order_records_names (o : Order.t) (min_wl max_wl : Q)
    (line_list : list (string * Q)) (r : Traced.t) :
  In r (order_records zGetTrace o min_wl max_wl line_list) ->
  Traced.m r = Order.m o /\ In (Traced.line_name r) (map fst line_list).
Proof.
  intro H. destruct (order_records_inside _ _ _ _ _ _ H)
    as (line_name & wl_angstrom & x & y & Hin & -> & _).
  split; [reflexivity|]. cbn. apply in_map_iff. now exists (line_name, wl_angstrom).
Qed.

Lemma order_records_NoDup (o : Order.t) (min_wl max_wl : Q)
    (line_list : list (string * Q)) :
  NoDup (map fst line_list) ->
  NoDup (map recorded_pair (order_records zGetTrace o min_wl max_wl line_list)).
Proof.
  induction line_list as [|[line_name wl_angstrom] rest IH]; intro Hnd.
  - constructor.
  - cbn [map fst] in Hnd. inversion Hnd as [|? ? Hnotin Hrest]; subst.
    rewrite order_records_cons.
    destruct (in_window _ _ _); [|now apply IH].
    destruct (zGetTrace _); [constructor|].
    cbn [map]. constructor; [|now apply IH].
    intro Hin. apply in_map_iff in Hin. destruct Hin as (r & E & Hr).
    apply order_records_names in Hr. destruct Hr as [_ Hr].
    injection E as _ E. rewrite E in Hr. contradiction.
Qed.

End ScanProperties.

(** X4.  [trace_lines] consults the tracer only after it has written the
    order of the scan into the surface parameter and the wavelength of a line
    inside the window of that order into the link.  So its result depends
    neither on the surface parameter nor on the wavelength that the link
    holds when the scan starts, and on the tracer only through its answers
    at these settings. *)
Theorem trace_lines_writes_the_link_before_tracing :
  forall (zGetTrace zGetTrace' : Link.t -> rayTraceData)
         (line_list : list (string * Q)) (Orders : list Order.t)
         (surface_parameter surface_parameter' : Z) (wave wave' : Q)
         (FSRonly : bool),
    (forall (o : Order.t) (line_name : string) (wl_angstrom : Q),
        In o Orders -> In (line_name, wl_angstrom) line_list ->
        in_window (fst (window FSRonly o)) (snd (window FSRonly o))
          (wl_angstrom / 10000) = true ->
        zGetTrace (Link.mk (Order.m o) (wl_angstrom / 10000))
        = zGetTrace' (Link.mk (Order.m o) (wl_angstrom / 10000))) ->
    trace_lines zGetTrace line_list Orders
      (Link.mk surface_parameter wave) FSRonly
    = trace_lines zGetTrace' line_list Orders
        (Link.mk surface_parameter' wave') FSRonly.
Proof.
  intros zGetTrace zGetTrace' line_list Orders sp sp' wave wave' FSRonly Hsame.
  rewrite !trace_lines_records.
  induction Orders as [|o rest IH]; [reflexivity|].
  cbn [flat_map].
  rewrite IH
    by (intros o' n' w' Ho' Hl' Hw'; apply (Hsame o' n' w'); trivial; now right).
  f_equal.
  assert (Ho : forall line_name wl_angstrom,
            In (line_name, wl_angstrom) line_list ->
            in_window (fst (window FSRonly o)) (snd (window FSRonly o))
              (wl_angstrom / 10000) = true ->
            zGetTrace (Link.mk (Order.m o) (wl_angstrom / 10000))
            = zGetTrace' (Link.mk (Order.m o) (wl_angstrom / 10000))).
  { intros n' w' Hl' Hw'. apply (Hsame o n' w'); trivial. now left. }
  clear - Ho.
  induction line_list as [|[line_name wl_angstrom] l IHl]; [reflexivity|].
  rewrite !order_records_cons.
  destruct (in_window _ _ (wl_angstrom / 10000)) eqn:W.
  - rewrite <- (Ho line_name wl_angstrom) by (trivial; now left).
    destruct (zGetTrace _); [reflexivity|]. f_equal.
    apply IHl. intros n' w' Hl' Hw'. apply (Ho n' w'); trivial. now right.
  - apply IHl. intros n' w' Hl' Hw'. apply (Ho n' w'); trivial. now right.
Qed.

(** Two tracers that differ only where the scan never asks, and two links
    left at different settings. *)
Lemma trace_lines_writes_the_link_before_tracing_witness :
  trace_lines (fun ln : Link.t => TraceTuple (Link.wave ln) 0) lines
    [Order.mk (-52) 0.66 0.65 0.64 0.67] (Link.mk 0 0) true
  = trace_lines
      (fun ln : Link.t =>
         if (Link.surface_parameter ln =? -52)%Z
         then TraceTuple (Link.wave ln) 0 else TraceError (-1))
      lines [Order.mk (-52) 0.66 0.65 0.64 0.67] (Link.mk 7 0.5) true.
Proof.
  apply trace_lines_writes_the_link_before_tracing.
  intros o line_name wl_angstrom [<-|[]] _ _. reflexivity.
Defined.

(** X5.  When the tracer fails on no pair that is traced, [trace_lines]
    records one entry for every (order, line) pair whose line lies strictly
    inside the window of the order, and nothing else, the orders in the
    order of [Echelle.Orders] and within an order the lines in the order of
    the catalogue; a line name is recorded once for every order whose window
    holds it. *)
Theorem trace_lines_without_failure :
  forall (zGetTrace : Link.t -> rayTraceData) (line_list : list (string * Q))
         (Orders : list Order.t) (ln : Link.t) (FSRonly : bool),
    (forall (o : Order.t) (line_name : string) (wl_angstrom : Q) (code : Z),
        In o Orders -> In (line_name, wl_angstrom) line_list ->
        in_window (fst (window FSRonly o)) (snd (window FSRonly o))
          (wl_angstrom / 10000) = true ->
        zGetTrace (Link.mk (Order.m o) (wl_angstrom / 10000)) <> TraceError code) ->
    map recorded_pair (trace_lines zGetTrace line_list Orders ln FSRonly)
    = flat_map
        (fun o => map (fun l => (Order.m o, fst l))
                    (lines_in_window (fst (window FSRonly o))
                       (snd (window FSRonly o)) line_list))
        Orders.
Proof.
  intros zGetTrace line_list Orders ln FSRonly Hok.
  rewrite trace_lines_records.
  induction Orders as [|o rest IH]; [reflexivity|].
  cbn [flat_map]. rewrite map_app.
  rewrite IH
    by (intros o' n' w' c' Ho' Hl' Hw'; apply (Hok o' n' w' c'); trivial; now right).
  f_equal.
  assert (Ho : forall line_name wl_angstrom code,
            In (line_name, wl_angstrom) line_list ->
            in_window (fst (window FSRonly o)) (snd (window FSRonly o))
              (wl_angstrom / 10000) = true ->
            zGetTrace (Link.mk (Order.m o) (wl_angstrom / 10000)) <> TraceError code).
  { intros n' w' c' Hl' Hw'. apply (Hok o n' w' c'); trivial. now left. }
  clear - Ho. unfold lines_in_window.
  induction line_list as [|[line_name wl_angstrom] l IHl]; [reflexivity|].
  rewrite order_records_cons. cbn [filter snd].
  destruct (in_window _ _ (wl_angstrom / 10000)) eqn:W.
  - destruct (zGetTrace _) as [code|x y] eqn:T.
    + exfalso. apply (Ho line_name wl_angstrom code); [now left | exact W | exact T].
    + cbn [map fst]. unfold recorded_pair at 1. cbn [Traced.m Traced.line_name].
      f_equal. apply IHl. intros n' w' c' Hl' Hw'.
      apply (Ho n' w' c'); trivial. now right.
  - apply IHl. intros n' w' c' Hl' Hw'. apply (Ho n' w' c'); trivial. now right.
Qed.

(** Two orders around one line of the catalogue: H-alpha, at 0.65648 micron,
    is recorded for the order whose window holds it and not for the other. *)
Lemma trace_lines_without_failure_witness :
  map recorded_pair
    (trace_lines (fun ln : Link.t => TraceTuple (Link.wave ln) 0) lines
       [Order.mk (-52) 0.66 0.65 0.64 0.67; Order.mk (-53) 0.65 0.64 0.63 0.66]
       (Link.mk 0 0) true)
  = flat_map
      (fun o => map (fun l => (Order.m o, fst l))
                  (lines_in_window (fst (window true o)) (snd (window true o)) lines))
      [Order.mk (-52) 0.66 0.65 0.64 0.67; Order.mk (-53) 0.65 0.64 0.63 0.66].
Proof.
  apply (trace_lines_without_failure (fun ln : Link.t => TraceTuple (Link.wave ln) 0)).
  intros o line_name wl_angstrom code _ _ _. discriminate.
Defined.

(** X6.  [trace_lines] returns at most one record for each pair of an order
    and a catalogue entry. *)
Theorem trace_lines_length_bound :
  forall (zGetTrace : Link.t -> rayTraceData) (line_list : list (string * Q))
         (Orders : list Order.t) (ln : Link.t) (FSRonly : bool),
    (List.length (trace_lines zGetTrace line_list Orders ln FSRonly)
     <= List.length Orders * List.length line_list)%nat.
Proof.
  intros zGetTrace line_list Orders ln FSRonly. rewrite trace_lines_records.
  induction Orders as [|o rest IH]; [apply Nat.le_refl|].
  cbn [flat_map List.length]. rewrite length_app.
  pose proof (order_records_length zGetTrace o (fst (window FSRonly o))
                (snd (window FSRonly o)) line_list).
  lia.
Qed.

Lemma last_cons_default {A : Type} (l : list A) (a d d' : A) :
  last (a :: l) d = last (a :: l) d'.
Proof.
  revert a. induction l as [|b l IH]; intro a; [reflexivity|].
  change (last (b :: l) d = last (b :: l) d'). apply IH.
Qed.

(** X7.  The scan leaves the link set to the last order of [Echelle.Orders]:
    after the loop over the orders the surface parameter is the number of
    the last order, and it is what it was when there is no order.  The loop
    over the lines never writes it. *)
Theorem trace_orders_leaves_the_last_order :
  forall (zGetTrace : Link.t -> rayTraceData) (orders : list Order.t)
         (FSRonly : bool) (line_list : list (string * Q)) (ln : Link.t)
         (lines_xy : list Traced.t),
    Link.surface_parameter
      (fst (trace_orders zGetTrace orders FSRonly line_list ln lines_xy))
    = last (map Order.m orders) (Link.surface_parameter ln).
Proof.
  intros zGetTrace orders FSRonly line_list.
  induction orders as [|o rest IH]; intros ln lines_xy; [reflexivity|].
  cbn [trace_orders]. destruct (window FSRonly o) as [min_wl max_wl].
  destruct (trace_order zGetTrace o min_wl max_wl line_list
              (zSetSurfaceParameter (Order.m o) ln) lines_xy) as [ln' acc] eqn:T.
  rewrite IH.
  assert (E : Link.surface_parameter ln' = Order.m o).
  { change ln' with (fst (ln', acc)). rewrite <- T.
    now rewrite trace_order_surface. }
  rewrite E. destruct rest as [|o' rest]; [reflexivity|].
  cbn [map]. rewrite (last_cons_default _ _ (Order.m o) (Link.surface_parameter ln)).
  reflexivity.
Qed.

(** X8.  When the names of the catalogue are pairwise distinct (they are the
    keys of a dict) and the orders have pairwise distinct numbers, no
    (order, name) pair is recorded twice by [trace_lines]. *)
Theorem trace_lines_records_a_pair_once :
  forall (zGetTrace : Link.t -> rayTraceData) (line_list : list (string * Q))
         (Orders : list Order.t) (ln : Link.t) (FSRonly : bool),
    NoDup (map fst line_list) ->
    NoDup (map Order.m Orders) ->
    NoDup (map recorded_pair (trace_lines zGetTrace line_list Orders ln FSRonly)).
Proof.
  intros zGetTrace line_list Orders ln FSRonly Hnames Horders.
  rewrite trace_lines_records.
  induction Orders as [|o rest IH]; [constructor|].
  cbn [map] in Horders. inversion Horders as [|? ? Hnotin Hrest]; subst.
  cbn [flat_map]. rewrite map_app. apply NoDup_app.
  - now apply order_records_NoDup.
  - now apply IH.
  - intros [m name] H1 H2.
    apply in_map_iff in H1. destruct H1 as (r1 & E1 & Hr1).
    apply in_map_iff in H2. destruct H2 as (r2 & E2 & Hr2).
    apply order_records_names in Hr1. destruct Hr1 as [Hm1 _].
    apply in_flat_map in Hr2. destruct Hr2 as (o' & Ho' & Hr2).
    apply order_records_names in Hr2. destruct Hr2 as [Hm2 _].
    injection E1 as E1 _. injection E2 as E2 _.
    apply Hnotin. apply in_map_iff. exists o'. split; [congruence | exact Ho'].
Qed.

(** The catalogue of the script under two orders of distinct numbers. *)
Lemma trace_lines_records_a_pair_once_witness :
  NoDup (map recorded_pair
           (trace_lines (fun ln : Link.t => TraceTuple (Link.wave ln) 0) lines
              [Order.mk (-52) 0.66 0.65 0.64 0.67; Order.mk (-53) 0.65 0.64 0.63 0.66]
              (Link.mk 0 0) true)).
Proof.
  apply trace_lines_records_a_pair_once.
  - assert (E : nodup string_dec (map fst lines) = map fst lines)
      by (vm_compute; reflexivity).
    rewrite <- E. apply NoDup_nodup.
  - repeat (constructor; [cbn; intuition discriminate|]). constructor.
Defined.

(** * Further properties of [plot_echellogram] *)

Lemma drawn_lines_app (l1 l2 : list artist) :
  drawn_lines (l1 ++ l2) = (drawn_lines l1 + drawn_lines l2)%nat.
Proof.
  induction l1 as [|a l1 IH]; [reflexivity|].
  destruct a; cbn [app drawn_lines]; rewrite IH; lia.
Qed.

Lemma in_combine_map {A B C : Type} (f : A -> B) (g : A -> C) (l : list A) (a : A) :
  In a l -> In (f a, g a) (combine (map f l) (map g l)).
Proof.
  induction l as [|b l IH]; [intros []|].
  intros [->|H]; [now left | right; now apply IH].
Qed.

Section LoopProperties.

Variable fpow : Q -> Q -> Q.

Lemma drawn_lines_labels (xl yl : Q * Q) (m : Z) (acc : list Point.t) :
  drawn_lines (order_labels xl yl m acc) = 0%nat.
Proof.
  pose proof (order_labels_texts fpow xl yl m acc) as H.
  induction H as [|a l [Ha _] _ IH]; [reflexivity|].
  destruct a; try discriminate Ha. exact IH.
Qed.

(** One polyline for every point that changes the order, and the final
    one. *)
Lemma emitted_drawn_lines (xl yl : Q * Q) (points : list Point.t) :
  forall (w : Z) (acc : list Point.t),
    drawn_lines (emitted fpow xl yl w acc points)
    = match points with
      | [] => 0%nat
      | _ :: _ => (order_changes w points + 1)%nat
      end.
Proof.
  induction points as [|p rest IH]; intros w acc; [reflexivity|].
  cbn [emitted order_changes]. rewrite drawn_lines_app.
  assert (Hc : drawn_lines
                 (if (Point.m p =? w)%Z then []
                  else order_line fpow acc
                       :: order_labels xl yl (Point.m p) acc)
               = if (Point.m p =? w)%Z then 0%nat else 1%nat).
  { destruct (Point.m p =? w)%Z; [reflexivity|].
    cbn [drawn_lines order_line]. now rewrite drawn_lines_labels. }
  rewrite Hc. destruct rest as [|q rest].
  - cbn. lia.
  - rewrite IH. cbn [order_changes]. lia.
Qed.

(** The points accumulated all have the working order, and so every
    polyline is drawn from points of one order. *)
Lemma emitted_one_order (xl yl : Q * Q) (points : list Point.t) :
  forall (w : Z) (acc : list Point.t),
    Forall (fun q => Point.m q = w) acc ->
    Forall (fun a =>
              match a with
              | Line2D _ _ _ _ =>
                  exists (ps : list Point.t) (m : Z),
                    incl ps (acc ++ points)
                    /\ Forall (fun q => Point.m q = m) ps
                    /\ a = order_line fpow ps
              | _ => True
              end) (emitted fpow xl yl w acc points).
Proof.
  induction points as [|p rest IH]; intros w acc Hacc; [constructor|].
  cbn [emitted]. apply Forall_app. split.
  - destruct (Point.m p =? w)%Z; [constructor|]. constructor.
    + exists acc, w. split; [apply incl_appl, incl_refl | now split].
    + eapply Forall_impl; [|apply (order_labels_texts fpow)].
      intros a [Ha _]. now destruct a.
  - assert (Hacc' : Forall (fun q => Point.m q = Point.m p)
                      (if (Point.m p =? w)%Z then acc ++ [p] else [p; p])).
    { destruct (Point.m p =? w)%Z eqn:E.
      - apply Z.eqb_eq in E. rewrite E. apply Forall_app. split; [exact Hacc|].
        now repeat constructor.
      - now repeat constructor. }
    assert (Hin : incl ((if (Point.m p =? w)%Z then acc ++ [p] else [p; p]) ++ [p])
                    (acc ++ p :: rest)).
    { intros q Hq. apply in_app_iff. destruct (Point.m p =? w)%Z.
      - rewrite !in_app_iff in Hq. cbn in Hq. cbn. tauto.
      - cbn in Hq. cbn. tauto. }
    destruct rest as [|q rest].
    + constructor; [|constructor]. eexists _, (Point.m p).
      split; [exact Hin|]. split; [|reflexivity].
      apply Forall_app. split; [exact Hacc' | now repeat constructor].
    + eapply Forall_impl; [|apply (IH _ _ Hacc')].
      intros [hs vs c lw|h v t al|verts]; trivial.
      intros (ps & m & Hps & Hm & E). exists ps, m.
      split; [|now split].
      intros r Hr. apply Hps in Hr. apply in_app_iff in Hr.
      destruct Hr as [Hr|Hr].
      * apply Hin. apply in_app_iff. now left.
      * apply in_app_iff. right. now right.
Qed.

(** No point is dropped: what was accumulated and what is read is in a
    polyline once the loop has run to the end. *)
Lemma emitted_holds_every_point (xl yl : Q * Q) (points : list Point.t) :
  forall (w : Z) (acc : list Point.t) (q : Point.t),
    points <> [] ->
    In q (acc ++ points) ->
    exists ps, In (order_line fpow ps) (emitted fpow xl yl w acc points) /\ In q ps.
Proof.
  induction points as [|p rest IH]; intros w acc q Hne Hq; [congruence|].
  cbn [emitted].
  destruct (Point.m p =? w)%Z eqn:E.
  - cbn [app]. destruct rest as [|r rest].
    + exists ((acc ++ [p]) ++ [p]). split; [now left|].
      rewrite !in_app_iff. apply in_app_iff in Hq. cbn in Hq. cbn. tauto.
    + apply (IH (Point.m p) (acc ++ [p]) q); [discriminate|].
      rewrite <- app_assoc. exact Hq.
  - apply in_app_iff in Hq. destruct Hq as [Hq|Hq].
    + exists acc. split; [|exact Hq]. apply in_app_iff. left. now left.
    + destruct rest as [|r rest].
      * destruct Hq as [<-|[]]. exists ([p; p] ++ [p]).
        split; [|now left]. apply in_app_iff. right. now left.
      * destruct (IH (Point.m p) [p; p] q) as (ps & Hps & Hqps);
          [discriminate | | ].
        { destruct Hq as [<-|Hq]; [now left|]. right. right. exact Hq. }
        exists ps. split; [|exact Hqps]. apply in_app_iff. now right.
Qed.

(** The labels of the polylines: where they come from. *)
Lemma emitted_labels (xl yl : Q * Q) (S : list Point.t) (points : list Point.t) :
  forall (w : Z) (acc : list Point.t),
    incl (acc ++ points) S ->
    Forall (fun a =>
              match a with
              | Text h v (WavelengthText nm verbose) al =>
                  exists p q : Point.t,
                    In p S /\ In q S /\ (Point.m q mod 5 = 0)%Z
                    /\ h = Point.y p /\ v = Point.x p /\ nm = Point.wl p * 1000
                    /\ verbose = (Z.abs (Point.m q) =? 90)%Z /\ al = AlignLeft
              | Text h v (OrderText n verbose) al =>
                  exists p q : Point.t,
                    In p S /\ In q S /\ (Point.m q mod 5 = 0)%Z
                    /\ h = Point.y p /\ v = Point.x p /\ n = Z.abs (Point.m q)
                    /\ verbose = (Z.abs (Point.m q) =? 90)%Z /\ al = AlignRight
              | Text _ _ (NameText _) _ => False
              | _ => True
              end) (emitted fpow xl yl w acc points).
Proof.
  induction points as [|p rest IH]; intros w acc Hi; [constructor|].
  assert (Hp : In p S) by (apply Hi, in_app_iff; right; now left).
  assert (Hacc : incl acc S) by (intros q Hq; apply Hi, in_app_iff; now left).
  cbn [emitted]. apply Forall_app. split.
  - destruct (Point.m p =? w)%Z; [constructor|]. constructor; [exact I|].
    unfold order_labels. destruct acc as [|first acc]; [constructor|].
    destruct (Point.m p mod 5 =? 0)%Z eqn:E5; [|constructor].
    apply Z.eqb_eq in E5. apply Forall_app. split.
    + destruct (start_label_test _ _ _ _); constructor; [|constructor].
      exists first, p. repeat split; trivial. apply Hacc. now left.
    + destruct (end_label_test _ _ _ _); constructor; [|constructor].
      exists (last (first :: acc) first), p. repeat split; trivial.
      apply Hacc, last_In.
  - destruct rest as [|q rest].
    + constructor; [exact I | constructor].
    + apply IH. intros r Hr. apply in_app_iff in Hr. destruct Hr as [Hr|Hr].
      * destruct (Point.m p =? w)%Z.
        -- apply in_app_iff in Hr. destruct Hr as [Hr|[<-|[]]]; [now apply Hacc | exact Hp].
        -- destruct Hr as [<-|[<-|[]]]; exact Hp.
      * apply Hi, in_app_iff. right. now right.
Qed.

(** One order from the first point to the last: the closed form. *)
Lemma emitted_one_run (xl yl : Q * Q) (m : Z) (rest : list Point.t) :
  forall (acc : list Point.t) (d : Point.t),
    Forall (fun q => Point.m q = m) rest ->
    rest <> [] ->
    emitted fpow xl yl m acc rest = [order_line fpow (acc ++ rest ++ [last rest d])].
Proof.
  induction rest as [|p rest IH]; intros acc d Hall Hne; [congruence|].
  inversion Hall as [|? ? Hp Hrest]; subst.
  cbn [emitted]. rewrite Z.eqb_refl. cbn [app].
  destruct rest as [|q rest].
  - cbn. now rewrite <- app_assoc.
  - rewrite (IH (acc ++ [p]) d Hrest) by discriminate.
    rewrite <- app_assoc. reflexivity.
Qed.

Lemma loop_body_same_lengths (n i : nat) (point : Point.t) (st : Loop.t) :
  same_lengths st -> same_lengths (loop_body fpow n i point st).
Proof.
  unfold same_lengths, loop_body, append_point. intros [Hy Hw].
  destruct (negb (Point.m point =? Loop.working_m st)%Z);
    cbn [Loop.working_m Loop.order_xs Loop.order_ys Loop.order_wls Loop.ax];
    rewrite ?Z.eqb_refl;
    repeat match goal with
           | |- context [if ?c then _ else _] => destruct c
           end;
    cbn [Loop.working_m Loop.order_xs Loop.order_ys Loop.order_wls Loop.ax];
    rewrite ?length_app; cbn [List.length app]; split; lia.
Qed.

End LoopProperties.

(** X9.  The assembly loop draws no polyline for an empty stream and
    otherwise one polyline for every point whose order differs from the
    order in force before it (the first point counts when its order is not
    0), and one for the end of the stream: a stream that alternates between
    two orders point by point gets a polyline per point. *)
Theorem assembly_drawn_lines :
  forall (fpow : Q -> Q -> Q) (SpectralFormat : list Point.t) (ax : Axes.t),
    drawn_lines (Axes.artists (Loop.ax (assembly fpow SpectralFormat ax)))
    = (drawn_lines (Axes.artists ax)
       + match SpectralFormat with
         | [] => 0
         | _ :: _ => order_changes 0 SpectralFormat + 1
         end)%nat.
Proof.
  intros fpow SpectralFormat ax. rewrite assembly_emitted.
  cbn [add_artists Axes.artists].
  now rewrite drawn_lines_app, emitted_drawn_lines.
Qed.

(** X10.  Every polyline drawn by the assembly loop is drawn from a list
    [ps] of points of the stream that all have one order: its horizontal
    coordinates are the [y] of these points and its vertical coordinates
    their [x], in the same order and so of one length, and its colour is the
    one chosen from their wavelengths.  A polyline never joins stream points
    of two orders. *)
Theorem assembly_polylines_hold_one_order :
  forall (fpow : Q -> Q -> Q) (SpectralFormat : list Point.t) (ax : Axes.t),
  exists new : list artist,
    Axes.artists (Loop.ax (assembly fpow SpectralFormat ax))
    = Axes.artists ax ++ new
    /\ Forall (fun a =>
                 match a with
                 | Line2D hs vs c lw =>
                     exists (ps : list Point.t) (m : Z),
                       incl ps SpectralFormat
                       /\ Forall (fun q => Point.m q = m) ps
                       /\ hs = map Point.y ps /\ vs = map Point.x ps
                       /\ c = order_color fpow (map Point.wl ps)
                       /\ List.length hs = List.length vs
                 | _ => True
                 end) new.
Proof.
  intros fpow SpectralFormat ax. rewrite assembly_emitted.
  eexists. split; [reflexivity|].
  eapply Forall_impl; [|apply emitted_one_order; constructor].
  intros [hs vs c lw|h v s al|verts]; trivial.
  intros (ps & m & Hps & Hall & E). injection E as -> -> -> _.
  exists ps, m. repeat split; trivial. now rewrite !length_map.
Qed.

(** X11.  The assembly loop drops no point: every point of the stream is a
    vertex, at [(y, x)], of a polyline drawn. *)
Theorem assembly_draws_every_point :
  forall (fpow : Q -> Q -> Q) (SpectralFormat : list Point.t) (ax : Axes.t),
    Forall (fun p =>
              exists hs vs c lw,
                In (Line2D hs vs c lw)
                  (Axes.artists (Loop.ax (assembly fpow SpectralFormat ax)))
                /\ In (Point.y p, Point.x p) (combine hs vs))
      SpectralFormat.
Proof.
  intros fpow SpectralFormat ax. rewrite assembly_emitted.
  apply Forall_forall. intros p Hp.
  destruct (emitted_holds_every_point fpow (Axes.xlim ax) (Axes.ylim ax)
              SpectralFormat 0 [] p) as (ps & Hline & Hin).
  - intro E. rewrite E in Hp. destruct Hp.
  - exact Hp.
  - eexists _, _, _, _. split.
    + cbn [add_artists Axes.artists]. apply in_app_iff. right. exact Hline.
    + now apply in_combine_map.
Qed.

(** X12.  Every label the assembly loop draws sits at [(y, x)] of a point [p]
    of the stream and was let through by a point [q] of the stream whose
    order is a multiple of 5; an order label shows [abs] of the order of [q],
    right-aligned, and a wavelength label the wavelength of [p] times 1000,
    left-aligned; either is in the verbose form exactly when [abs] of the
    order of [q] is 90.  The loop draws no name of a line.  So when no order
    of the stream is a multiple of 5 the loop draws no text at all. *)
Theorem assembly_labels :
  forall (fpow : Q -> Q -> Q) (SpectralFormat : list Point.t) (ax : Axes.t),
  exists new : list artist,
    Axes.artists (Loop.ax (assembly fpow SpectralFormat ax))
    = Axes.artists ax ++ new
    /\ Forall (fun a =>
                 match a with
                 | Text h v (WavelengthText nm verbose) al =>
                     exists p q : Point.t,
                       In p SpectralFormat /\ In q SpectralFormat
                       /\ (Point.m q mod 5 = 0)%Z
                       /\ h = Point.y p /\ v = Point.x p
                       /\ nm = Point.wl p * 1000
                       /\ verbose = (Z.abs (Point.m q) =? 90)%Z
                       /\ al = AlignLeft
                 | Text h v (OrderText n verbose) al =>
                     exists p q : Point.t,
                       In p SpectralFormat /\ In q SpectralFormat
                       /\ (Point.m q mod 5 = 0)%Z
                       /\ h = Point.y p /\ v = Point.x p
                       /\ n = Z.abs (Point.m q)
                       /\ verbose = (Z.abs (Point.m q) =? 90)%Z
                       /\ al = AlignRight
                 | Text _ _ (NameText _) _ => False
                 | _ => True
                 end) new
    /\ (Forall (fun q => (Point.m q mod 5 <> 0)%Z) SpectralFormat ->
        Forall (fun a => is_text a = false) new).
Proof.
  intros fpow SpectralFormat ax. rewrite assembly_emitted.
  eexists. split; [reflexivity|].
  pose proof (emitted_labels fpow (Axes.xlim ax) (Axes.ylim ax) SpectralFormat
                SpectralFormat 0 [] (incl_refl _)) as H.
  split; [exact H|].
  intro Hno. rewrite Forall_forall in Hno.
  eapply Forall_impl; [|exact H].
  intros [hs vs c lw|h v [nm verbose|n verbose|s] al|verts]; trivial.
  - intros (p & q & _ & Hq & H5 & _). exfalso. exact (Hno q Hq H5).
  - intros (p & q & _ & Hq & H5 & _). exfalso. exact (Hno q Hq H5).
  - intros [].
Qed.

(** X13.  For a detector of non-zero extent the outline of the detector is the
    last thing [plot_echellogram] draws, it is the square of half-side
    [abs(detector_corners[0])], and each of its corners lies strictly inside
    the viewport. *)
Theorem detector_outline_inside_viewport :
  forall (fpow : Q -> Q -> Q) (ax : Axes.t) (SpectralFormat : list Point.t)
         (lines_xy : list Traced.t) (corner : Q) (corners : list Q),
    ~ corner == 0 ->
    exists (ax' : Axes.t) (before : list artist),
      plot_echellogram fpow ax SpectralFormat lines_xy (corner :: corners)
      = Some ax'
      /\ Axes.artists ax'
         = before ++ [Polygon [(- Qabs corner, - Qabs corner);
                               (Qabs corner, - Qabs corner);
                               (Qabs corner, Qabs corner);
                               (- Qabs corner, Qabs corner)]]
      /\ Forall (fun hv => inside_viewport (Axes.xlim ax') (Axes.ylim ax')
                             (fst hv) (snd hv))
           [(- Qabs corner, - Qabs corner); (Qabs corner, - Qabs corner);
            (Qabs corner, Qabs corner); (- Qabs corner, Qabs corner)].
Proof.
  intros fpow ax SpectralFormat lines_xy corner corners Hc.
  rewrite plot_echellogram_artists. eexists _, _.
  split; [reflexivity|]. cbn [Axes.artists Axes.xlim Axes.ylim].
  split; [rewrite !app_assoc; reflexivity|].
  assert (Hb : 0 < Qabs corner).
  { destruct (Qlt_le_dec 0 (Qabs corner)) as [H|H]; [exact H|].
    exfalso. apply Hc.
    pose proof (Qabs_nonneg corner) as Hn.
    assert (E : Qabs corner == 0) by lra.
    pose proof (Qle_Qabs corner) as H1.
    pose proof (Qle_Qabs (- corner)) as H2. rewrite Qabs_opp in H2. lra. }
  rewrite nonsingular_apart by lra.
  unfold inside_viewport. cbn [fst snd].
  repeat constructor; cbn [fst snd]; lra.
Qed.

Lemma detector_outline_inside_viewport_witness :
  exists (ax' : Axes.t) (before : list artist),
    plot_echellogram whole_power blank_axes [Point.mk 1 0.9 1 2] [] [-8; 8; 8; -8]
    = Some ax'
    /\ Axes.artists ax'
       = before ++ [Polygon [(- Qabs (-8), - Qabs (-8)); (Qabs (-8), - Qabs (-8));
                             (Qabs (-8), Qabs (-8)); (- Qabs (-8), Qabs (-8))]]
    /\ Forall (fun hv => inside_viewport (Axes.xlim ax') (Axes.ylim ax')
                           (fst hv) (snd hv))
         [(- Qabs (-8), - Qabs (-8)); (Qabs (-8), - Qabs (-8));
          (Qabs (-8), Qabs (-8)); (- Qabs (-8), Qabs (-8))].
Proof.
  apply (detector_outline_inside_viewport whole_power blank_axes
           [Point.mk 1 0.9 1 2] [] (-8) [8; 8; -8]).
  intro H. discriminate H.
Defined.

(** X14.  Of [detector_corners], [plot_echellogram] reads the first entry
    only, and of that entry its absolute value only. *)
Theorem plot_echellogram_reads_abs_of_first_corner :
  forall (fpow : Q -> Q -> Q) (ax : Axes.t) (SpectralFormat : list Point.t)
         (lines_xy : list Traced.t) (corner : Q) (corners corners' : list Q),
    plot_echellogram fpow ax SpectralFormat lines_xy (- corner :: corners)
    = plot_echellogram fpow ax SpectralFormat lines_xy (corner :: corners').
Proof.
  intros fpow ax SpectralFormat lines_xy corner corners corners'.
  rewrite !plot_echellogram_artists.
  assert (E : Qabs (- corner) = Qabs corner).
  { destruct corner as [n d]. unfold Qabs, Qopp. cbn [Qnum Qden].
    now rewrite Z.abs_opp. }
  now rewrite E.
Qed.

(** X15.  A stream of one order only, [p] and the points after it: the loop
    draws one polyline of the stream, in which the first point is there
    twice when its order is not 0 and the last point is there twice, and
    before it the empty polyline when the order is not 0; it draws no
    label. *)
Theorem assembly_of_one_order :
  forall (fpow : Q -> Q -> Q) (p : Point.t) (rest : list Point.t) (ax : Axes.t),
    Forall (fun q => Point.m q = Point.m p) rest ->
    let ps := (if (Point.m p =? 0)%Z then [p] else [p; p])
              ++ rest ++ [last rest p] in
    Axes.artists (Loop.ax (assembly fpow (p :: rest) ax))
    = Axes.artists ax
      ++ (if (Point.m p =? 0)%Z then [] else [Line2D [] [] ColorK 1.2])
      ++ [Line2D (map Point.y ps) (map Point.x ps)
            (order_color fpow (map Point.wl ps)) 1.2].
Proof.
  intros fpow p rest ax Hall ps. subst ps. rewrite assembly_emitted.
  cbn [add_artists Axes.artists]. f_equal.
  cbn [emitted order_labels].
  destruct (Point.m p =? 0)%Z; cbn [app]; destruct rest as [|q rest];
    try reflexivity.
  - rewrite (emitted_one_run fpow _ _ (Point.m p) (q :: rest) [p] p Hall)
      by discriminate.
    reflexivity.
  - rewrite (emitted_one_run fpow _ _ (Point.m p) (q :: rest) [p; p] p Hall)
      by discriminate.
    reflexivity.
Qed.

Lemma assembly_of_one_order_witness :
  Axes.artists
    (Loop.ax (assembly whole_power
                [Point.mk 7 0.9 1 2; Point.mk 7 0.9 3 4; Point.mk 7 0.9 5 6]
                blank_axes))
  = [Line2D [] [] ColorK 1.2;
     Line2D [2; 2; 4; 6; 6] [1; 1; 3; 5; 5] ColorK 1.2].
Proof.
  apply (assembly_of_one_order whole_power (Point.mk 7 0.9 1 2)
           [Point.mk 7 0.9 3 4; Point.mk 7 0.9 5 6] blank_axes).
  repeat constructor.
Defined.

(** X16.  A polyline whose first sample has its [x] on or beyond a limit of
    the x axis gets no label: [label_order] (lines 194-211) leaves the axes
    as they are, whatever the order and the other samples. *)
Theorem label_order_needs_first_x_inside :
  forall (m : Z) (order_xs order_ys order_wls : list Q) (ax : Axes.t),
    nth 0 order_xs 0 <= fst (get_xlim ax) \/ snd (get_xlim ax) <= nth 0 order_xs 0 ->
    label_order m order_xs order_ys order_wls ax = ax.
Proof.
  intros m order_xs order_ys order_wls ax Hx.
  assert (Ex : (nth 0 order_xs 0 >? fst (get_xlim ax))
               && (nth 0 order_xs 0 <? snd (get_xlim ax)) = false).
  { apply not_true_iff_false. rewrite andb_true_iff, !Qltb_lt. lra. }
  unfold label_order.
  destruct ((0 <? List.length order_xs)%nat && (m mod 5 =? 0)%Z); [|reflexivity].
  rewrite Ex. cbv zeta. rewrite Ex. reflexivity.
Qed.

Lemma label_order_needs_first_x_inside_witness :
  label_order 5 [10; 3] [2; 4] [0.9; 0.9] (Axes.mk (-10, 10) (-10, 10) [])
  = Axes.mk (-10, 10) (-10, 10) [].
Proof.
  apply (label_order_needs_first_x_inside 5 [10; 3] [2; 4] [0.9; 0.9]
           (Axes.mk (-10, 10) (-10, 10) [])).
  right. cbn. discriminate.
Defined.

(** X17.  The three accumulators of the assembly loop keep one length
    through every turn of the loop: under the guard [len(order_xs) > 0] the
    subscripts [order_ys[0]], [order_wls[0]] and [order_ys[-1]] are those of
    existing items. *)
Theorem loop_keeps_accumulators_aligned :
  forall (fpow : Q -> Q -> Q) (points : list Point.t) (n i : nat) (st : Loop.t),
    same_lengths st ->
    same_lengths (loop_from fpow n i points st).
Proof.
  intros fpow points. induction points as [|p rest IH]; intros n i st H.
  - exact H.
  - cbn [loop_from]. apply IH. now apply loop_body_same_lengths.
Qed.

Lemma loop_keeps_accumulators_aligned_witness :
  same_lengths
    (assembly whole_power
       [Point.mk 4 0.9 1 2; Point.mk 4 0.9 3 4; Point.mk 5 0.9 5 6] blank_axes).
Proof.
  apply (loop_keeps_accumulators_aligned whole_power
           [Point.mk 4 0.9 1 2; Point.mk 4 0.9 3 4; Point.mk 5 0.9 5 6] 3 0).
  split; reflexivity.
Defined.

(** * [trace_lines] into [plot_echellogram] *)

(** X18.  When the lines handed to [plot_echellogram] are the result of
    [trace_lines], every name it draws is a key of the catalogue; it is drawn
    centred at [(y, x)] for the position [(x, y)] that the tracer returned
    for that line in an order whose window holds the wavelength of the line
    strictly inside, and that position lies strictly inside the viewport. *)
Theorem names_drawn_come_from_the_scan :
  forall (fpow : Q -> Q -> Q) (zGetTrace : Link.t -> rayTraceData)
         (line_list : list (string * Q)) (Orders : list Order.t) (ln : Link.t)
         (FSRonly : bool) (ax : Axes.t) (SpectralFormat : list Point.t)
         (corner : Q) (corners : list Q),
  exists (xl yl : Q * Q) (new : list artist),
    plot_echellogram fpow ax SpectralFormat
      (trace_lines zGetTrace line_list Orders ln FSRonly) (corner :: corners)
    = Some (Axes.mk xl yl (Axes.artists ax ++ new))
    /\ Forall (fun a =>
                 match a with
                 | Text h v (NameText s) al =>
                     exists (o : Order.t) (wl_angstrom : Q),
                       In o Orders /\ In (s, wl_angstrom) line_list
                       /\ zGetTrace (Link.mk (Order.m o) (wl_angstrom / 10000))
                          = TraceTuple v h
                       /\ fst (window FSRonly o) < wl_angstrom / 10000
                       /\ wl_angstrom / 10000 < snd (window FSRonly o)
                       /\ inside_viewport xl yl h v
                       /\ al = AlignCenter
                 | _ => True
                 end) new.
Proof.
  intros fpow zGetTrace line_list Orders ln FSRonly ax SpectralFormat corner corners.
  rewrite plot_echellogram_artists. eexists _, _, _. split; [reflexivity|].
  apply Forall_app. split; [|apply Forall_app; split].
  - eapply Forall_impl;
      [|apply (emitted_labels fpow _ _ SpectralFormat SpectralFormat 0 []
                 (incl_refl _))].
    intros [hs vs c lw|h v [nm verbose|n verbose|s] al|verts]; trivial.
    intros [].
  - apply Forall_flat_map, Forall_forall. intros line Hline.
    rewrite trace_lines_records in Hline. apply in_flat_map in Hline.
    destruct Hline as (o & Ho & Hr).
    destruct (order_records_inside _ _ _ _ _ _ Hr)
      as (line_name & wl_angstrom & x & y & Hin & -> & T & Hlo & Hhi).
    unfold line_label. cbn [Traced.xy Traced.line_name fst snd].
    destruct (line_label_test _ _ x y) eqn:Hv; constructor; [|constructor].
    exists o, wl_angstrom. repeat split; trivial;
      apply line_label_test_inside in Hv; unfold inside_viewport in Hv;
      cbn [fst snd] in *; tauto.
  - repeat constructor.
Qed.

(** * The viewport and the transposition *)





